(** * Islamabad transit KMZ generator: a shallow embedding of [generator.py]

    The tables that [pandas.read_csv] builds from the GTFS archive are lists
    of rows, a cell is a Python scalar ([value]), an identifier column is an
    [ident], floats are IEEE 754 doubles in the structural form of
    [SpecFloat], and the simplekml document is a tree of folders, lines and
    points that the assembly loops extend by explicit state passing.  A step
    that can raise in Python returns a [result].

    The file has the Python builtins first ([Py]), then the data model, the
    frame operations and the pure helpers, then the generator itself in a
    section over the library functions that are not modelled (the float
    parsers, the float printer, the markup renderer, the encoder and the zip
    writer), then the properties, and last the examples on sample feeds. *)

From Stdlib Require Import ZArith List String Ascii Bool Lia PeanoNat.
From Stdlib Require Import Sorting.Sorted Sorting.Permutation.
From Stdlib Require Import Structures.OrdersEx Classes.RelationClasses.
From Stdlib Require Import Floats.SpecFloat.
From Stdlib Require Import Numbers.DecimalString.
Import ListNotations.

Set Warnings "-register-all".

Local Open Scope string_scope.
Local Open Scope Z_scope.

(** ** Python scalars and the builtins the generator calls *)

Module Py.

(** A [string] stands for a Python [str], one [ascii] per character (code
    points 0 to 255). *)

(** [str.isspace] on a single character. *)
Definition isspace (c : ascii) : bool :=
  let n := nat_of_ascii c in
  ((9 <=? n) && (n <=? 13) || (28 <=? n) && (n <=? 32) || (n =? 133) || (n =? 160))%nat.

Fixpoint lstrip_with (p : ascii -> bool) (s : string) : string :=
  match s with
  | String c s' => if p c then lstrip_with p s' else s
  | EmptyString => EmptyString
  end.

Definition string_rev (s : string) : string :=
  string_of_list_ascii (rev (list_ascii_of_string s)).

Definition rstrip_with (p : ascii -> bool) (s : string) : string :=
  string_rev (lstrip_with p (string_rev s)).

(** [s.strip()] *)
Definition strip (s : string) : string :=
  rstrip_with isspace (lstrip_with isspace s).

(** [s.lstrip(ch)] for a one-character argument: every leading copy goes. *)
Definition lstrip_char (ch : ascii) (s : string) : string :=
  lstrip_with (Ascii.eqb ch) s.

(** [s.lower()]: the capitals A-Z and, above 127, the capitals 192 to 222
    but for the sign 215, move up by 32. *)
Definition lower_char (c : ascii) : ascii :=
  let n := nat_of_ascii c in
  if ((65 <=? n) && (n <=? 90) || (192 <=? n) && (n <=? 222) && negb (n =? 215))%nat
  then ascii_of_nat (n + 32) else c.

Fixpoint lower (s : string) : string :=
  match s with
  | String c s' => String (lower_char c) (lower s')
  | EmptyString => EmptyString
  end.

(** [sub in s] *)
Fixpoint contains (sub s : string) : bool :=
  prefix sub s ||
  match s with
  | String _ s' => contains sub s'
  | EmptyString => false
  end.

(** Truthiness of a [str]: the empty string is falsy. *)
Definition truthy (s : string) : bool :=
  match s with EmptyString => false | _ => true end.

(** [s.split()]: maximal runs of non-whitespace characters. *)
Fixpoint split_ws_aux (cur : list ascii) (s : string) : list string :=
  let flush := match cur with
               | [] => []
               | _ => [string_of_list_ascii (rev cur)]
               end in
  match s with
  | EmptyString => flush
  | String c s' =>
      if isspace c then flush ++ split_ws_aux [] s'
      else split_ws_aux (c :: cur) s'
  end.

Definition split_ws (s : string) : list string := split_ws_aux [] s.

(** [s.split(sep)] for a one-character separator: empty fields are kept. *)
Fixpoint split_char_aux (sep : ascii) (cur : list ascii) (s : string) : list string :=
  match s with
  | EmptyString => [string_of_list_ascii (rev cur)]
  | String c s' =>
      if Ascii.eqb c sep
      then string_of_list_ascii (rev cur) :: split_char_aux sep [] s'
      else split_char_aux sep (c :: cur) s'
  end.

Definition split_char (sep : ascii) (s : string) : list string :=
  split_char_aux sep [] s.

(** [s.replace(a, b)] for one-character [a] and [b]. *)
Fixpoint replace_char (a b : ascii) (s : string) : string :=
  match s with
  | String c s' => String (if Ascii.eqb c a then b else c) (replace_char a b s')
  | EmptyString => EmptyString
  end.

(** The whitespace that [int] skips around a number: as [isspace], but for
    the four separators 28 to 31. *)
Definition int_space (c : ascii) : bool :=
  let n := nat_of_ascii c in
  ((9 <=? n) && (n <=? 13) || (n =? 32) || (n =? 133) || (n =? 160))%nat.

(** The value of a digit character in [int(text, base)]: 0-9, then the
    letters of either case from 10 on. *)
Definition digit_val (c : ascii) : option Z :=
  let n := nat_of_ascii c in
  if ((48 <=? n) && (n <=? 57))%nat then Some (Z.of_nat (n - 48))
  else if ((97 <=? n) && (n <=? 122))%nat then Some (Z.of_nat (n - 87))
  else if ((65 <=? n) && (n <=? 90))%nat then Some (Z.of_nat (n - 55))
  else None.

(** The digit scan of [int]: digits below [base], single underscores between
    them; [None] on a doubled or a trailing underscore.  Returns the value,
    the number of digits and the unread rest. *)
Fixpoint scan_digits (base : Z) (s : string) (prev_us : bool) (acc : Z) (n : nat)
  : option (Z * nat * string) :=
  let stop := if prev_us then None else Some (acc, n, s) in
  match s with
  | EmptyString => stop
  | String c s' =>
      if Ascii.eqb c "_" then
        if prev_us then None else scan_digits base s' true acc n
      else
        match digit_val c with
        | Some d =>
            if d <? base then scan_digits base s' false (acc * base + d) (S n)
            else stop
        | None => stop
        end
  end.

(** [int(text, base)] for base 10 or 16: surrounding whitespace, one sign, for
    base 16 an optional [0x] with one underscore after it, then the digits.
    [None] is [ValueError]. *)
Definition int_of_string (base : Z) (text : string) : option Z :=
  let s := lstrip_with int_space text in
  let '(neg, s) :=
    match s with
    | String c s' =>
        if Ascii.eqb c "+" then (false, s')
        else if Ascii.eqb c "-" then (true, s')
        else (false, s)
    | EmptyString => (false, s)
    end in
  let s :=
    match s with
    | String c (String x s') =>
        if Ascii.eqb c "0" && (base =? 16) && (Ascii.eqb x "x" || Ascii.eqb x "X")
        then match s' with
             | String u s'' => if Ascii.eqb u "_" then s'' else s'
             | EmptyString => s'
             end
        else s
    | _ => s
    end in
  match s with
  | EmptyString => None
  | String c _ =>
      if Ascii.eqb c "_" then None
      else
        match scan_digits base s false 0 0 with
        | Some (v, n, rest) =>
            match n, lstrip_with int_space rest with
            | S _, EmptyString => Some (if neg then - v else v)
            | _, _ => None
            end
        | None => None
        end
  end.

(** Python floats: IEEE 754 binary64. *)
Definition float := spec_float.
Definition nan : float := S754_nan.

Definition float_eqb (x y : float) : bool := SFeqb x y.
Definition float_ltb (x y : float) : bool := SFltb x y.

Definition float_isnan (x : float) : bool :=
  match x with S754_nan => true | _ => false end.

(** [float(n)] for an integer [n], rounded to nearest even. *)
Definition float_of_Z (n : Z) : float := binary_normalize 53 1024 n 0 false.

(** [int(x)] for a float: truncation toward zero; [None] stands for the
    [ValueError] on NaN and the [OverflowError] on an infinity. *)
Definition int_of_float (x : float) : option Z :=
  match x with
  | S754_zero _ => Some 0
  | S754_finite s m e =>
      let a := Z.shiftl (Zpos m) e in
      Some (if s then - a else a)
  | S754_infinity _ | S754_nan => None
  end.

(** A cell of a table, or any Python scalar met by the generator: an
    integer, a float (NaN marks a missing cell) or a string. *)
Inductive value :=
| VInt (n : Z)
| VFloat (x : float)
| VStr (s : string).

Definition NaN : value := VFloat nan.

(** [pd.isna] on a scalar. *)
Definition isna (v : value) : bool :=
  match v with
  | VFloat x => float_isnan x
  | _ => false
  end.

(** [a == b] on scalars: numbers compare by value, NaN equals nothing, a
    string equals only the same string. *)
Definition value_eqb (a b : value) : bool :=
  match a, b with
  | VInt m, VInt n => m =? n
  | VInt m, VFloat y => float_eqb (float_of_Z m) y
  | VFloat x, VInt n => float_eqb x (float_of_Z n)
  | VFloat x, VFloat y => float_eqb x y
  | VStr s, VStr t => String.eqb s t
  | _, _ => false
  end.

(** [a < b] on scalars of one kind (a column holds one kind). *)
Definition value_ltb (a b : value) : bool :=
  match a, b with
  | VInt m, VInt n => m <? n
  | VInt m, VFloat y => float_ltb (float_of_Z m) y
  | VFloat x, VInt n => float_ltb x (float_of_Z n)
  | VFloat x, VFloat y => float_ltb x y
  | VStr s, VStr t => String.ltb s t
  | _, _ => false
  end.

(** [int(v)]; [None] when Python raises. *)
Definition int_of_value (v : value) : option Z :=
  match v with
  | VInt n => Some n
  | VFloat x => int_of_float x
  | VStr s => int_of_string 10 s
  end.

(** [str(n)] for an integer. *)
Definition str_of_Z (n : Z) : string := NilZero.string_of_int (Z.to_int n).

End Py.

Import Py.

(** ** Identifiers and tables *)

(** An identifier column ([route_id], [trip_id], [shape_id], [stop_id]) is
    read as integers when every entry is one and as strings otherwise.  Two
    tables that are compared or joined on an identifier are taken to hold the
    same kind. *)
Inductive ident :=
| IdInt (n : Z)
| IdStr (s : string).

Definition ident_eqb (a b : ident) : bool :=
  match a, b with
  | IdInt m, IdInt n => m =? n
  | IdStr s, IdStr t => String.eqb s t
  | _, _ => false
  end.

(** The order in which pandas sorts group keys: integers by value, strings
    by code points.  A column holds one kind; integers are put first only to
    make the order total. *)
Definition ident_compare (a b : ident) : comparison :=
  match a, b with
  | IdInt m, IdInt n => Z.compare m n
  | IdInt _, IdStr _ => Lt
  | IdStr _, IdInt _ => Gt
  | IdStr s, IdStr t => String_as_OT.compare s t
  end.

Definition ident_ltb (a b : ident) : bool :=
  match ident_compare a b with Lt => true | _ => false end.

Definition ident_leb (a b : ident) : bool :=
  match ident_compare a b with Gt => false | _ => true end.

(** [str(id)] *)
Definition ident_str (a : ident) : string :=
  match a with
  | IdInt n => str_of_Z n
  | IdStr s => s
  end.

(** A row of routes.txt.  An optional column that the file lacks is [None]
    in every row: [safe_col] then fails and the code reads [None]. *)
Record route_row := {
  r_route_id : ident;
  r_route_short_name : option value;
  r_route_long_name : option value;
  r_route_color : option value;
  r_route_text_color : option value
}.

(** A row of trips.txt; [t_shape_id = None] is a NaN shape id. *)
Record trip_row := {
  t_trip_id : ident;
  t_route_id : ident;
  t_shape_id : option ident;
  t_direction_id : value
}.

(** trips.txt: [trips_has_direction_id] tells whether the file has the
    [direction_id] column; without it [t_direction_id] is not read. *)
Record trips_table := {
  trips_has_direction_id : bool;
  trips_rows : list trip_row
}.

Record shape_row := {
  sh_shape_id : ident;
  sh_shape_pt_lat : value;
  sh_shape_pt_lon : value;
  sh_shape_pt_sequence : value
}.

Record stop_row := {
  s_stop_id : ident;
  s_stop_name : value;
  s_stop_lon : value;
  s_stop_lat : value
}.

(** stops.txt: [stops_has_stop_name] tells whether it has a [stop_name]
    column. *)
Record stops_table := {
  stops_has_stop_name : bool;
  stops_rows : list stop_row
}.

Record stop_time_row := {
  st_trip_id : ident;
  st_stop_id : ident;
  st_stop_sequence : value
}.

(** A row of [st.merge(stops, on="stop_id", how="left")].  [m_stop_name] is
    [None] when the frame has no [stop_name] column. *)
Record merged_row := {
  m_trip_id : ident;
  m_stop_id : ident;
  m_stop_sequence : value;
  m_stop_name : option value;
  m_stop_lon : value;
  m_stop_lat : value
}.

(** The feed after loading. *)
Record feed := {
  routes : list route_row;
  trips : trips_table;
  shapes : list shape_row;
  stops : stops_table;
  stop_times : list stop_time_row
}.

(** ** The simplekml document *)

(** [simplekml.Color.rgb(r, g, b)], at full opacity. *)
Inductive color :=
| Color_rgb (r g b : Z).

Definition Color_blue : color := Color_rgb 0 0 255.
Definition Color_red : color := Color_rgb 255 0 0.
Definition Color_white : color := Color_rgb 255 255 255.

Definition coord : Type := (float * float)%type.

Inductive feature :=
| Folder (name : string) (children : list feature)
| LineString (name : string) (coords : list coord) (width : Z) (line_color : color)
| Point (name : string) (coords : list coord) (label_scale : float) (icon_color : color).

(** The children of the three top-level folders, in the order of creation. *)
Record kml_doc := {
  fwd_group_folder : list feature;
  bwd_group_folder : list feature;
  stops_group_folder : list feature
}.

(** The tree under [kml]: the root folder and its three groups. *)
Definition root_folder (d : kml_doc) : feature :=
  Folder "EV Routes (GTFS + Metro)"
    [ Folder "Routes - Forward Path" (fwd_group_folder d);
      Folder "Routes - Backward Path" (bwd_group_folder d);
      Folder "Routes - Stops" (stops_group_folder d) ].

(** The folders of one route while its directions are processed. *)
Record route_folders := {
  route_fwd_folder : list feature;
  route_bwd_folder : list feature;
  route_stops_fwd_folder : list feature;
  route_stops_bwd_folder : list feature
}.

Definition empty_route_folders : route_folders :=
  {| route_fwd_folder := []; route_bwd_folder := [];
     route_stops_fwd_folder := []; route_stops_bwd_folder := [] |}.

(** The number of line features in a tree. *)
Fixpoint count_lines (f : feature) : nat :=
  match f with
  | Folder _ children => list_sum (map count_lines children)
  | LineString _ _ _ _ => 1
  | Point _ _ _ _ => 0
  end.

(** The label scale 0.8 as the double Python reads it. *)
Definition scale_0_8 : float := S754_finite false 7205759403792794 (-53).

(** ** Errors *)

Inductive py_exception :=
| RuntimeError (msg : string)
| ValueError (msg : string).

Inductive result (A : Type) :=
| Ok (a : A)
| Raised (e : py_exception).

Arguments Ok {A} a.
Arguments Raised {A} e.

Definition bind {A B : Type} (m : result A) (k : A -> result B) : result B :=
  match m with
  | Ok a => k a
  | Raised e => Raised e
  end.

Notation "'let*' x ':=' m 'in' k" := (bind m (fun x => k))
  (at level 10, x name, m at level 100, k at level 200).

(** ** Helpers *)

(** A cell that is a string and not blank, stripped. *)
Definition nonblank_str (val : option value) : option string :=
  match val with
  | Some (VStr val) => if truthy (strip val) then Some (strip val) else None
  | _ => None
  end.

(** [get_route_name]: the first of short and long name that is a string and
    not blank, stripped; else the route id as text. *)
Definition get_route_name (route_row : route_row) : string :=
  match nonblank_str (r_route_short_name route_row) with
  | Some name => name
  | None =>
      match nonblank_str (r_route_long_name route_row) with
      | Some name => name
      | None => ident_str (r_route_id route_row)
      end
  end.

(** [gtfs_color_to_kml]: [color_str] is the cell, [None] for Python's
    [None]. *)
Definition gtfs_color_to_kml (color_str : option value) (default : color) : color :=
  match color_str with
  | Some (VStr color_str) =>
      let color_str := lstrip_char "#" (strip color_str) in
      if negb (String.length color_str =? 6)%nat then default
      else
        match int_of_string 16 (substring 0 2 color_str),
              int_of_string 16 (substring 2 2 color_str),
              int_of_string 16 (substring 4 2 color_str) with
        | Some r, Some g, Some b => Color_rgb r g b
        | _, _, _ => default
        end
  | _ => default
  end.

(** ** Frame operations *)

(** Insertion that keeps equal elements in their order of arrival:
    [before a b] says that [a] has to come strictly before [b]. *)
Fixpoint insert_by {A : Type} (before : A -> A -> bool) (x : A) (l : list A) : list A :=
  match l with
  | [] => [x]
  | y :: l' => if before y x then y :: insert_by before x l' else x :: l
  end.

(** An order-preserving sort.  Python's [sorted] is one; pandas'
    [sort_values] does not promise it for equal keys, and is modelled by the
    same function. *)
Definition stable_sort {A : Type} (before : A -> A -> bool) (l : list A) : list A :=
  fold_right (insert_by before) [] l.

(** [df.sort_values(col)]: rows by ascending key, rows with a NaN key last. *)
Definition sort_values {A : Type} (key : A -> value) (rows : list A) : list A :=
  stable_sort (fun a b => value_ltb (key a) (key b))
              (filter (fun r => negb (isna (key r))) rows)
  ++ filter (fun r => isna (key r)) rows.

(** [series.dropna()] *)
Definition dropna (l : list value) : list value :=
  filter (fun v => negb (isna v)) l.

(** [series.unique()]: first occurrences, in order; NaNs count as one value. *)
Definition same_value (a b : value) : bool :=
  value_eqb a b || isna a && isna b.

Fixpoint unique_aux (seen : list value) (l : list value) : list value :=
  match l with
  | [] => []
  | v :: l' =>
      if existsb (same_value v) seen then unique_aux seen l'
      else v :: unique_aux (v :: seen) l'
  end.

Definition unique (l : list value) : list value := unique_aux [] l.

Definition mem_ident (k : ident) (l : list ident) : bool :=
  existsb (ident_eqb k) l.

Fixpoint unique_idents_aux (seen : list ident) (l : list ident) : list ident :=
  match l with
  | [] => []
  | k :: l' =>
      if mem_ident k seen then unique_idents_aux seen l'
      else k :: unique_idents_aux (k :: seen) l'
  end.

Definition unique_idents (l : list ident) : list ident := unique_idents_aux [] l.

Definition count_ident (k : ident) (l : list ident) : nat :=
  List.length (filter (ident_eqb k) l).

(** [frame.groupby(col).size()]: one entry per key, keys ascending. *)
Definition groupby_size (keys : list ident) : list (ident * nat) :=
  map (fun k => (k, count_ident k keys))
      (stable_sort ident_ltb (unique_idents keys)).

(** [series.sort_values(ascending=False)] on the counts: pandas reverses,
    sorts ascending and reverses back, which leaves equal counts in the
    order of the series when the sort underneath keeps them in order.  The
    default sort does not promise that on long tables; what is proved below
    does not depend on the order of equal counts. *)
Definition sort_values_desc (counts : list (ident * nat)) : list (ident * nat) :=
  stable_sort (fun a b => (snd b <? snd a)%nat) counts.

(** [ordered.drop_duplicates(subset=["stop_id"], keep="first")] *)
Fixpoint drop_duplicates_aux (seen : list ident) (rows : list merged_row) : list merged_row :=
  match rows with
  | [] => []
  | r :: rows' =>
      if mem_ident (m_stop_id r) seen then drop_duplicates_aux seen rows'
      else r :: drop_duplicates_aux (m_stop_id r :: seen) rows'
  end.

Definition drop_duplicates (rows : list merged_row) : list merged_row :=
  drop_duplicates_aux [] rows.

(** ** Trip map and the selector *)

(** [trip_route_map]: the trips with a [direction_id] column, filled with 0
    when trips.txt has none. *)
Definition trip_route_map (trips : trips_table) : list trip_row :=
  if trips_has_direction_id trips then trips_rows trips
  else map (fun t => {| t_trip_id := t_trip_id t;
                        t_route_id := t_route_id t;
                        t_shape_id := t_shape_id t;
                        t_direction_id := VInt 0 |}) (trips_rows trips).

(** [route_trips = trip_route_map[trip_route_map["route_id"] == route_id]] *)
Definition route_trips_of (trip_map : list trip_row) (route_id : ident) : list trip_row :=
  filter (fun t => ident_eqb (t_route_id t) route_id) trip_map.

(** [sorted(route_trips["direction_id"].dropna().unique())] *)
Definition directions_of (route_trips : list trip_row) : list value :=
  stable_sort value_ltb (unique (dropna (map t_direction_id route_trips))).

(** [dir_trips = route_trips[route_trips["direction_id"] == direction]] *)
Definition dir_trips_of (route_trips : list trip_row) (direction : value) : list trip_row :=
  filter (fun t => value_eqb (t_direction_id t) direction) route_trips.

(** [dir_int]: [int(direction)], 0 when that raises. *)
Definition dir_int_of (direction : value) : Z :=
  match int_of_value direction with
  | Some n => n
  | None => 0
  end.

Definition dir_label_of (dir_int : Z) : string :=
  if dir_int =? 0 then "FWD" else "BWD".

(** [pick_representative_trip_id] *)
Definition pick_representative_trip_id
    (stop_times : list stop_time_row) (trip_ids : list ident) : option ident :=
  let st := filter (fun r => mem_ident (st_trip_id r) trip_ids) stop_times in
  match st with
  | [] => None
  | _ =>
      let counts := sort_values_desc (groupby_size (map st_trip_id st)) in
      match counts with
      | (k, _) :: _ => Some k
      | [] => None
      end
  end.

(** ** Rail overlay: names and colours *)

(** A leaf element of the overlay document with its [text]. *)
Inductive element :=
| Element (text : option string).

Record line_string := {
  ls_coordinates : option element
}.

(** A [Placemark]: its [name] child and its first [LineString], when there. *)
Record placemark := {
  pm_name : option element;
  pm_line_string : option line_string
}.

(** [name_el.text.strip() if (name_el is not None and name_el.text) else
    "Metro Segment"] *)
Definition placemark_name (pm : placemark) : string :=
  match pm_name pm with
  | Some (Element (Some text)) =>
      if truthy text then strip text else "Metro Segment"
  | _ => "Metro Segment"
  end.

(** The colour of a rail line, from its name. *)
Definition metro_color (name : string) : color :=
  let name_lower := lower name in
  if contains "red" name_lower then Color_red
  else if contains "orange" name_lower then Color_rgb 255 165 0
  else Color_white.

(** One pass of the loop over [metro_lines]: a folder with one line in each
    of the two path groups, the backward one reversed. *)
Definition add_metro_line (d : kml_doc) (line : string * list coord) : kml_doc :=
  let '(name, coords) := line in
  let color := metro_color name in
  {| fwd_group_folder :=
       fwd_group_folder d ++ [Folder name [LineString name coords 5 color]];
     bwd_group_folder :=
       bwd_group_folder d ++ [Folder name [LineString name (rev coords) 5 color]];
     stops_group_folder := stops_group_folder d |}.

Definition add_metro_lines (d : kml_doc) (metro_lines : list (string * list coord)) : kml_doc :=
  fold_left add_metro_line metro_lines d.

(** ** Output container *)

Definition bytes : Type := list Byte.byte.

Inductive compression :=
| ZIP_STORED
| ZIP_DEFLATED.

(** A member of a zip archive as [ZipFile.writestr] records it. *)
Record zip_member := {
  zm_filename : string;
  zm_date_time : Z * Z * Z * Z * Z * Z;
  zm_compress_type : compression;
  zm_data : bytes
}.

Fixpoint keep_some {A B : Type} (f : A -> option B) (l : list A) : list B :=
  match l with
  | [] => []
  | a :: l' =>
      match f a with
      | Some b => b :: keep_some f l'
      | None => keep_some f l'
      end
  end.

Fixpoint for_each {A S : Type} (l : list A) (body : A -> S -> result S) (s : S) : result S :=
  match l with
  | [] => Ok s
  | a :: l' => let* s' := body a s in for_each l' body s'
  end.

(** ** Sample inputs

    Stand-ins for the library functions, and small feeds, on which the
    definitions are run in the examples at the end. *)

Module Samples.

(** Reads integer literals only: the sample texts hold whole numbers. *)
Definition float_of_string (s : string) : option float :=
  option_map float_of_Z (int_of_string 10 s).

Definition numeric_of_string (s : string) : option float := float_of_string s.

(** Prints whole numbers only. *)
Definition float_repr (x : float) : string :=
  match int_of_float x with
  | Some n => str_of_Z n ++ ".0"
  | None => ""
  end.

(** The names of the features, nested as the folders are. *)
Fixpoint kml_text (f : feature) : string :=
  match f with
  | Folder name children =>
      "<Folder><name>" ++ name ++ "</name>" ++ String.concat "" (map kml_text children)
      ++ "</Folder>"
  | LineString name _ _ _ => "<Placemark><name>" ++ name ++ "</name><LineString/></Placemark>"
  | Point name _ _ _ => "<Placemark><name>" ++ name ++ "</name><Point/></Placemark>"
  end.

Definition encode_utf8 (s : string) : bytes := list_byte_of_string s.

(** Member names and contents, one after the other. *)
Definition zip_bytes (members : list zip_member) : bytes :=
  flat_map (fun m => list_byte_of_string (zm_filename m) ++ zm_data m)%list members.

Definition T1 : ident := IdStr "T1".
Definition T2 : ident := IdStr "T2".
Definition R1 : ident := IdStr "R1".
Definition S1 : ident := IdStr "S1".

Definition route_1 : route_row :=
  {| r_route_id := R1;
     r_route_short_name := Some (VStr "1");
     r_route_long_name := None;
     r_route_color := Some (VStr "FF0000");
     r_route_text_color := None |}.

Definition trip (id : ident) (direction : value) : trip_row :=
  {| t_trip_id := id; t_route_id := R1; t_shape_id := Some S1;
     t_direction_id := direction |}.

Definition shape_point (seq lon lat : Z) : shape_row :=
  {| sh_shape_id := S1; sh_shape_pt_lat := VInt lat; sh_shape_pt_lon := VInt lon;
     sh_shape_pt_sequence := VInt seq |}.

Definition stop (id name : string) (lon lat : Z) : stop_row :=
  {| s_stop_id := IdStr id; s_stop_name := VStr name;
     s_stop_lon := VInt lon; s_stop_lat := VInt lat |}.

Definition stop_time (trip_id : ident) (stop_id : string) (seq : value) : stop_time_row :=
  {| st_trip_id := trip_id; st_stop_id := IdStr stop_id; st_stop_sequence := seq |}.

Definition stops_ABC : stops_table :=
  {| stops_has_stop_name := true;
     stops_rows := [stop "A" "Aabpara" 73 33; stop "B" "Blue Area" 74 34;
                    stop "C" "Centaurus" 75 35] |}.

(** One route, one forward trip, a shape of three points given out of
    order, three stop-times. *)
Definition one_route : feed :=
  {| routes := [route_1];
     trips := {| trips_has_direction_id := true; trips_rows := [trip T1 (VInt 0)] |};
     shapes := [shape_point 2 74 34; shape_point 1 73 33; shape_point 3 75 35];
     stops := stops_ABC;
     stop_times := [stop_time T1 "A" (VInt 1); stop_time T1 "B" (VInt 2);
                    stop_time T1 "C" (VInt 3)] |}.

(** The same feed with other trips and stop-times. *)
Definition with_trips (has_direction_id : bool) (rows : list trip_row)
    (st : list stop_time_row) : feed :=
  {| routes := [route_1];
     trips := {| trips_has_direction_id := has_direction_id; trips_rows := rows |};
     shapes := shapes one_route;
     stops := stops_ABC;
     stop_times := st |}.

Definition now : Z * Z * Z * Z * Z * Z := (2024, 1, 1, 0, 0, 0).

(** The three points of the sample shape, in sequence order. *)
Definition coords_S1 : list coord :=
  [(float_of_Z 73, float_of_Z 33); (float_of_Z 74, float_of_Z 34);
   (float_of_Z 75, float_of_Z 35)].

(** A joined row of trip [T1]. *)
Definition joined (stop_id : string) (seq : Z) (name lon lat : value) : merged_row :=
  {| m_trip_id := T1; m_stop_id := IdStr stop_id; m_stop_sequence := VInt seq;
     m_stop_name := Some name; m_stop_lon := lon; m_stop_lat := lat |}.

(** Stop-times that visit stop [A] twice, listed out of order. *)
Definition stop_times_A_twice : list stop_time_row :=
  [stop_time T1 "A" (VInt 3); stop_time T1 "B" (VInt 1); stop_time T1 "A" (VInt 2)].

(** Trip [T1] with 3 stop-time rows and trip [T2] with 5. *)
Definition stop_times_3_and_5 : list stop_time_row :=
  [stop_time T1 "A" (VInt 1); stop_time T2 "A" (VInt 1); stop_time T1 "B" (VInt 2);
   stop_time T2 "B" (VInt 2); stop_time T2 "C" (VInt 3); stop_time T1 "C" (VInt 3);
   stop_time T2 "B" (VInt 4); stop_time T2 "A" (VInt 5)].

(** One row for trip [B], then one for trip [A]. *)
Definition stop_times_tie : list stop_time_row :=
  [stop_time (IdStr "B") "A" (VInt 1); stop_time (IdStr "A") "A" (VInt 1)].

(** A placemark named by three spaces, with two coordinates. *)
Definition blank_placemark : placemark :=
  {| pm_name := Some (Element (Some "   "));
     pm_line_string :=
       Some {| ls_coordinates := Some (Element (Some "73,33,0 74,34,0")) |} |}.


(** The sample feed with a shape whose second longitude is not a number. *)
Definition text_longitude : feed :=
  {| routes := routes one_route;
     trips := trips one_route;
     shapes := [shape_point 1 73 33;
                {| sh_shape_id := S1; sh_shape_pt_lat := VInt 34;
                   sh_shape_pt_lon := VStr "east"; sh_shape_pt_sequence := VInt 2 |}];
     stops := stops one_route;
     stop_times := stop_times one_route |}.

End Samples.

(** ** The generator, over the library functions it calls *)

Section Generator.

(** [float(text)]: [None] is [ValueError]. *)
Variable float_of_string : string -> option float.
(** What [pd.to_numeric] reads in a string cell; [None] when it cannot. *)
Variable numeric_of_string : string -> option float.
(** [str(x)] for a finite non-zero float. *)
Variable float_repr : float -> string.
(** [kml.kml(format=False)]: the markup of the document. *)
Variable kml_text : feature -> string.
(** [text.encode("utf-8")] *)
Variable encode_utf8 : string -> bytes.
(** The bytes of a zip archive with the given members. *)
Variable zip_bytes : list zip_member -> bytes.

(** [float(v)] *)
Definition float_of_value (v : value) : option float :=
  match v with
  | VInt n => Some (float_of_Z n)
  | VFloat x => Some x
  | VStr s => float_of_string s
  end.

(** [str(v)] *)
Definition str_of_value (v : value) : string :=
  match v with
  | VInt n => str_of_Z n
  | VFloat S754_nan => "nan"
  | VFloat (S754_infinity s) => if s then "-inf" else "inf"
  | VFloat (S754_zero s) => if s then "-0.0" else "0.0"
  | VFloat x => float_repr x
  | VStr s => s
  end.

(** [pd.to_numeric(col, errors="coerce")] on one cell. *)
Definition to_numeric (v : value) : value :=
  match v with
  | VStr s =>
      match numeric_of_string s with
      | Some x => VFloat x
      | None => NaN
      end
  | _ => v
  end.

(** [col.astype(float)]: raises on the first cell that does not convert. *)
Fixpoint astype_float (col : list value) : result (list float) :=
  match col with
  | [] => Ok []
  | v :: col' =>
      match float_of_value v with
      | Some x => let* xs := astype_float col' in Ok (x :: xs)
      | None => Raised (ValueError "could not convert string to float")
      end
  end.

(** The coordinates of a shape, from its rows already in order. *)
Definition shape_coords (route_shape : list shape_row) : result (list coord) :=
  let* lons := astype_float (map sh_shape_pt_lon route_shape) in
  let* lats := astype_float (map sh_shape_pt_lat route_shape) in
  Ok (combine lons lats).

(** [st.merge(stops, on="stop_id", how="left")]: the left rows in order,
    each with every stop of its id, or once with NaN cells when no stop has
    it. *)
Definition merge_left (st : list stop_time_row) (stops : stops_table) : list merged_row :=
  flat_map
    (fun r =>
       let joined name lon lat :=
         {| m_trip_id := st_trip_id r;
            m_stop_id := st_stop_id r;
            m_stop_sequence := st_stop_sequence r;
            m_stop_name := if stops_has_stop_name stops then Some name else None;
            m_stop_lon := lon;
            m_stop_lat := lat |} in
       match filter (fun s => ident_eqb (s_stop_id s) (st_stop_id r)) (stops_rows stops) with
       | [] => [joined NaN NaN NaN]
       | found => map (fun s => joined (s_stop_name s) (s_stop_lon s) (s_stop_lat s)) found
       end)
    st.

(** The stop-times of a trip with a numeric sequence, in sequence order. *)
Definition sequenced_stop_times
    (stop_times : list stop_time_row) (trip_id : ident) : list stop_time_row :=
  let st := filter (fun r => ident_eqb (st_trip_id r) trip_id) stop_times in
  let st := map (fun r => {| st_trip_id := st_trip_id r;
                             st_stop_id := st_stop_id r;
                             st_stop_sequence := to_numeric (st_stop_sequence r) |}) st in
  sort_values st_stop_sequence
              (filter (fun r => negb (isna (st_stop_sequence r))) st).

(** [get_ordered_stops_for_trip] *)
Definition get_ordered_stops_for_trip
    (stop_times : list stop_time_row) (stops : stops_table) (trip_id : ident)
  : list merged_row :=
  match filter (fun r => ident_eqb (st_trip_id r) trip_id) stop_times with
  | [] => []
  | _ => merge_left (sequenced_stop_times stop_times trip_id) stops
  end.

(** One pass of the loop over [ordered]: the point of a row, or nothing
    when a coordinate does not convert. *)
Definition stop_point (stop_icon_color : color) (row : merged_row) : option feature :=
  let stop_name :=
    match m_stop_name row with
    | Some v => str_of_value v
    | None => ident_str (m_stop_id row)
    end in
  match float_of_value (m_stop_lon row), float_of_value (m_stop_lat row) with
  | Some lon, Some lat => Some (Point stop_name [(lon, lat)] scale_0_8 stop_icon_color)
  | _, _ => None
  end.

Definition stop_points (stop_icon_color : color) (ordered : list merged_row) : list feature :=
  keep_some (stop_point stop_icon_color) ordered.

Definition add_line (dir_int : Z) (ls : feature) (rf : route_folders) : route_folders :=
  if dir_int =? 0 then
    {| route_fwd_folder := route_fwd_folder rf ++ [ls];
       route_bwd_folder := route_bwd_folder rf;
       route_stops_fwd_folder := route_stops_fwd_folder rf;
       route_stops_bwd_folder := route_stops_bwd_folder rf |}
  else
    {| route_fwd_folder := route_fwd_folder rf;
       route_bwd_folder := route_bwd_folder rf ++ [ls];
       route_stops_fwd_folder := route_stops_fwd_folder rf;
       route_stops_bwd_folder := route_stops_bwd_folder rf |}.

Definition add_points (dir_int : Z) (pts : list feature) (rf : route_folders) : route_folders :=
  if dir_int =? 0 then
    {| route_fwd_folder := route_fwd_folder rf;
       route_bwd_folder := route_bwd_folder rf;
       route_stops_fwd_folder := route_stops_fwd_folder rf ++ pts;
       route_stops_bwd_folder := route_stops_bwd_folder rf |}
  else
    {| route_fwd_folder := route_fwd_folder rf;
       route_bwd_folder := route_bwd_folder rf;
       route_stops_fwd_folder := route_stops_fwd_folder rf;
       route_stops_bwd_folder := route_stops_bwd_folder rf ++ pts |}.

(** The body of [for direction in directions], on the folders of the route. *)
Definition process_direction
    (g : feed) (route_name : string) (line_color stop_icon_color : color)
    (route_trips : list trip_row) (direction : value) (rf : route_folders)
  : result route_folders :=
  let dir_trips := dir_trips_of route_trips direction in
  match dir_trips with
  | [] => Ok rf
  | rep_trip_row :: _ =>
      let dir_int := dir_int_of direction in
      let dir_label := dir_label_of dir_int in
      match t_shape_id rep_trip_row with
      | None => Ok rf
      | Some shape_id =>
          let route_shape :=
            filter (fun p => ident_eqb (sh_shape_id p) shape_id) (shapes g) in
          match route_shape with
          | [] => Ok rf
          | _ =>
              let route_shape := sort_values sh_shape_pt_sequence route_shape in
              let* coords := shape_coords route_shape in
              if (List.length coords <? 2)%nat then Ok rf
              else
                let line_name := route_name ++ " " ++ dir_label in
                let rf := add_line dir_int (LineString line_name coords 4 line_color) rf in
                match pick_representative_trip_id
                        (stop_times g) (unique_idents (map t_trip_id dir_trips)) with
                | None => Ok rf
                | Some rep_trip_id =>
                    match get_ordered_stops_for_trip (stop_times g) (stops g) rep_trip_id with
                    | [] => Ok rf
                    | ordered =>
                        let ordered := drop_duplicates ordered in
                        Ok (add_points dir_int (stop_points stop_icon_color ordered) rf)
                    end
                end
          end
      end
  end.

(** The body of [for _, route_row in routes.iterrows()]. *)
Definition process_route (g : feed) (route_row : route_row) (d : kml_doc) : result kml_doc :=
  let route_id := r_route_id route_row in
  let route_name := get_route_name route_row in
  let line_color := gtfs_color_to_kml (r_route_color route_row) Color_blue in
  let stop_icon_color := gtfs_color_to_kml (r_route_text_color route_row) line_color in
  let route_trips := route_trips_of (trip_route_map (trips g)) route_id in
  let* rf := match route_trips with
        | [] => Ok empty_route_folders
        | _ =>
            for_each (directions_of route_trips)
                     (process_direction g route_name line_color stop_icon_color route_trips)
                     empty_route_folders
        end in
  Ok {| fwd_group_folder :=
          fwd_group_folder d ++ [Folder route_name (route_fwd_folder rf)];
        bwd_group_folder :=
          bwd_group_folder d ++ [Folder route_name (route_bwd_folder rf)];
        stops_group_folder :=
          stops_group_folder d ++
          [Folder route_name
             [Folder "Stops - FWD" (route_stops_fwd_folder rf);
              Folder "Stops - BWD" (route_stops_bwd_folder rf)]] |}.

Definition empty_doc : kml_doc :=
  {| fwd_group_folder := []; bwd_group_folder := []; stops_group_folder := [] |}.

(** The document after the loop over the routes. *)
Definition build_routes (g : feed) : result kml_doc :=
  for_each (routes g) (process_route g) empty_doc.

(** One token of the coordinates text. *)
Definition parse_part (part : string) : option coord :=
  match split_char "," part with
  | p0 :: p1 :: _ =>
      match float_of_string p0, float_of_string p1 with
      | Some lon, Some lat => Some (lon, lat)
      | _, _ => None
      end
  | _ => None
  end.

Definition parse_coordinates (text : string) : list coord :=
  keep_some parse_part (split_ws (replace_char "010" " " text)).

(** One pass of the loop over the placemarks: the entry appended to
    [metro_lines], if any. *)
Definition read_placemark (pm : placemark) : option (string * list coord) :=
  let name := placemark_name pm in
  match pm_line_string pm with
  | None => None
  | Some ls =>
      match ls_coordinates ls with
      | Some (Element (Some text)) =>
          if truthy text then
            let coords := parse_coordinates text in
            if (2 <=? List.length coords)%nat then Some (name, coords) else None
          else None
      | _ => None
      end
  end.

Definition read_metro_lines (placemarks : list placemark) : list (string * list coord) :=
  keep_some read_placemark placemarks.

(** The last step: the markup, alone or as the one member of an archive. *)
Definition save_output (now : Z * Z * Z * Z * Z * Z) (output_format : string) (d : kml_doc) : bytes :=
  let kml_content := kml_text (root_folder d) in
  if String.eqb output_format "kml" then encode_utf8 kml_content
  else
    zip_bytes [ {| zm_filename := "doc.kml";
                   zm_date_time := now;
                   zm_compress_type := ZIP_DEFLATED;
                   zm_data := encode_utf8 kml_content |} ].

(** [generate_kmz_file], after the two downloads: [g] is the feed read from
    the GTFS archive, [metro] the placemarks of the first [.kml] member of
    the overlay archive ([None] when it has none), [now] the clock. *)
Definition generate_kmz_file
    (gtfs_url github_token output_format : string)
    (g : feed) (metro : option (list placemark)) (now : Z * Z * Z * Z * Z * Z)
  : result bytes :=
  if negb (truthy gtfs_url) then
    Raised (RuntimeError "GTFS_URL is missing. Set it before running the script.")
  else if negb (truthy github_token) then
    Raised (RuntimeError "GITHUB_TOKEN is missing. Set it before running the script.")
  else
    let* d := build_routes g in
    match metro with
    | None => Raised (RuntimeError "No .kml file found inside Metro KMZ")
    | Some placemarks =>
        let d := add_metro_lines d (read_metro_lines placemarks) in
        Ok (save_output now output_format d)
    end.

(** ** The endpoint of [main.py] *)

(** The body of the request: the URL of the feed as text, [None] when the
    request gives none and the environment has no default. *)
Record KmzRequest := {
  kr_gtfs_url : option string
}.

(** The [Response]: the body, the media type and the [Content-Disposition]
    header. *)
Record Response := {
  content : bytes;
  media_type : string;
  content_disposition : string
}.

(** What a call of the endpoint ends in: a response, an [HTTPException], or
    an exception of the generator, which the endpoint does not catch. *)
Inductive endpoint_outcome :=
| Responded (r : Response)
| HTTPException (status_code : Z) (detail : string)
| Uncaught (e : py_exception).

(** Truthiness of an optional text: [None] and the empty text are falsy. *)
Definition truthy_opt (v : option string) : bool :=
  match v with
  | Some s => truthy s
  | None => false
  end.

(** [a or b] *)
Definition py_or (a b : option string) : option string :=
  if truthy_opt a then a else b.

(** [str(v)] for a text that is there. *)
Definition str_of_opt (v : option string) : string :=
  match v with
  | Some s => s
  | None => "None"
  end.

(** [create_kmz]: [github_token] is the header, [env_github_token] what
    [os.getenv("GITHUB_TOKEN")] gives; [g], [metro] and [now] are what the
    generator downloads and reads. *)
Definition create_kmz
    (request : KmzRequest) (output_format : string)
    (github_token env_github_token : option string)
    (g : feed) (metro : option (list placemark)) (now : Z * Z * Z * Z * Z * Z)
  : endpoint_outcome :=
  let final_github_token := py_or github_token env_github_token in
  if negb (truthy_opt final_github_token) then
    HTTPException 400 "GITHUB_TOKEN not provided in header or .env file"
  else
    let final_gtfs_url := kr_gtfs_url request in
    if negb (truthy_opt final_gtfs_url) then
      HTTPException 400 "GTFS_URL not provided in request body or .env file"
    else if negb (String.eqb output_format "kmz" || String.eqb output_format "kml") then
      HTTPException 400 "Invalid output_format. Must be 'kmz' or 'kml'"
    else
      match generate_kmz_file (str_of_opt final_gtfs_url) (str_of_opt final_github_token)
                              output_format g metro now with
      | Raised e => Uncaught e
      | Ok data =>
          let '(media_type, filename) :=
            if String.eqb output_format "kml"
            then ("application/vnd.google-earth.kml+xml", "Islamabad_Transit.kml")
            else ("application/vnd.google-earth.kmz", "Islamabad_Transit.kmz") in
          Responded {| content := data;
                       media_type := media_type;
                       content_disposition := "attachment; filename=" ++ filename |}
      end.

(** ** Notions used to state the properties *)

(** A hexadecimal digit and its value. *)
Definition is_hex (c : ascii) : bool :=
  match digit_val c with
  | Some d => d <? 16
  | None => false
  end.

Definition hex_value (c : ascii) : Z :=
  match digit_val c with
  | Some d => d
  | None => 0
  end.

Fixpoint all_hex (s : string) : bool :=
  match s with
  | String c s' => is_hex c && all_hex s'
  | EmptyString => true
  end.

(** What is left of a colour cell when the resolver starts to parse. *)
Definition color_core (s : string) : string := lstrip_char "#" (strip s).

(** A colour text as the specification words it: six hexadecimal digits
    once the surrounding whitespace and one optional leading [#] are gone. *)
Definition six_hex_digits (s : string) : bool :=
  let t := strip s in
  let t := match t with
           | String c t' => if Ascii.eqb c "#" then t' else t
           | EmptyString => t
           end in
  (String.length t =? 6)%nat && all_hex t.

Definition ident_lt (a b : ident) : Prop := ident_compare a b = Lt.

(** The number of stop-time rows of a trip. *)
Definition stop_time_count (stop_times : list stop_time_row) (trip_id : ident) : nat :=
  List.length (filter (fun r => ident_eqb (st_trip_id r) trip_id) stop_times).

(** The first entry of a count table that no entry beats. *)
Fixpoint first_max (counts : list (ident * nat)) : option (ident * nat) :=
  match counts with
  | [] => None
  | x :: l =>
      match first_max l with
      | Some y => if (snd x <? snd y)%nat then Some y else Some x
      | None => Some x
      end
  end.


(** [sub] occurs in [s] when the case of the letters is ignored. *)
Fixpoint prefix_ci (sub s : string) : bool :=
  match sub, s with
  | EmptyString, _ => true
  | String a sub', String b s' =>
      Ascii.eqb (lower_char a) (lower_char b) && prefix_ci sub' s'
  | String _ _, EmptyString => false
  end.

Fixpoint contains_ci (sub s : string) : bool :=
  prefix_ci sub s ||
  match s with
  | String _ s' => contains_ci sub s'
  | EmptyString => false
  end.

(** The folders that one rail line adds to the two path groups. *)
Definition metro_fwd_folder (line : string * list coord) : feature :=
  Folder (fst line) [LineString (fst line) (snd line) 5 (metro_color (fst line))].

Definition metro_bwd_folder (line : string * list coord) : feature :=
  Folder (fst line) [LineString (fst line) (rev (snd line)) 5 (metro_color (fst line))].

(** The rows of a shape and the points they yield once sorted. *)
Definition shape_rows (g : feed) (shape_id : ident) : list shape_row :=
  filter (fun p => ident_eqb (sh_shape_id p) shape_id) (shapes g).

Definition shape_points (g : feed) (shape_id : ident) : result (list coord) :=
  shape_coords (sort_values sh_shape_pt_sequence (shape_rows g shape_id)).

(** The path folder of a direction, and the other one. *)
Definition path_folder (dir_int : Z) (rf : route_folders) : list feature :=
  if dir_int =? 0 then route_fwd_folder rf else route_bwd_folder rf.

Definition other_path_folder (dir_int : Z) (rf : route_folders) : list feature :=
  if dir_int =? 0 then route_bwd_folder rf else route_fwd_folder rf.

(** The line of a direction. *)
Definition direction_line
    (route_name : string) (direction : value) (coords : list coord) (line_color : color)
  : feature :=
  LineString (route_name ++ " " ++ dir_label_of (dir_int_of direction)) coords 4 line_color.

(** The two zeros are one key; any other float is its own. *)
Definition float_key (x : float) : float :=
  match x with
  | S754_zero _ => S754_zero false
  | _ => x
  end.

(** Values that [==] holds equal have one key. *)
Definition value_key (v : value) : value :=
  match v with
  | VFloat x => VFloat (float_key x)
  | _ => v
  end.

Definition same_kind (a b : value) : Prop :=
  match a, b with
  | VInt _, VInt _ | VFloat _, VFloat _ | VStr _, VStr _ => True
  | _, _ => False
  end.

(** A column of one kind: its cells that are not NaN are all integers, all
    floats or all strings. *)
Definition one_kind (col : list value) : Prop :=
  forall a b, In a col -> In b col -> isna a = false -> isna b = false -> same_kind a b.

(** The number in an integer cell. *)
Definition cell_int (v : value) : Z :=
  match v with
  | VInt n => n
  | _ => 0
  end.

Definition is_int_cell (v : value) : Prop := exists n, v = VInt n.












(** [sep not in s]. *)
Fixpoint no_char (sep : ascii) (s : string) : bool :=
  match s with
  | EmptyString => true
  | String c s' => negb (Ascii.eqb c sep) && no_char sep s'
  end.

(** ** Facts about the builtins *)

Ltac each_ascii c :=
  let b0 := fresh "b" in let b1 := fresh "b" in let b2 := fresh "b" in
  let b3 := fresh "b" in let b4 := fresh "b" in let b5 := fresh "b" in
  let b6 := fresh "b" in let b7 := fresh "b" in
  destruct c as [b0 b1 b2 b3 b4 b5 b6 b7];
  destruct b0, b1, b2, b3, b4, b5, b6, b7.

Lemma hex_char_facts (c : ascii) :
  is_hex c = true ->
  int_space c = false /\ Ascii.eqb c "+" = false /\ Ascii.eqb c "-" = false /\
  Ascii.eqb c "_" = false /\ Ascii.eqb c "x" = false /\ Ascii.eqb c "X" = false /\
  digit_val c = Some (hex_value c) /\ (hex_value c <? 16) = true.
Proof.
  each_ascii c; vm_compute; intros H; try discriminate H; repeat split; reflexivity.
Qed.

(** Two hexadecimal digits read in base 16. *)
Lemma int_of_string_hex_pair (c1 c2 : ascii) :
  is_hex c1 = true -> is_hex c2 = true ->
  int_of_string 16 (String c1 (String c2 "")) = Some (16 * hex_value c1 + hex_value c2).
Proof.
  intros H1 H2.
  destruct (hex_char_facts c1 H1) as (S1 & P1 & M1 & U1 & _ & _ & D1 & L1).
  destruct (hex_char_facts c2 H2) as (_ & _ & _ & U2 & X2 & X2' & D2 & L2).
  unfold int_of_string. cbn [lstrip_with].
  rewrite S1, P1, M1, X2, X2'. rewrite Bool.andb_false_r.
  rewrite U1. cbn [scan_digits]. rewrite U1, D1, L1, U2, D2, L2.
  cbn [lstrip_with]. f_equal. lia.
Qed.

Lemma substring_all (s : string) : substring 0 (String.length s) s = s.
Proof.
  induction s as [|c s IH]; cbn; [reflexivity | now rewrite IH].
Qed.

(** ** The colour resolver *)

Lemma gtfs_color_to_kml_not_str (v : option value) (default : color) :
  (forall s, v <> Some (VStr s)) -> gtfs_color_to_kml v default = default.
Proof.
  intros H. destruct v as [[n|x|s]|]; try reflexivity.
  now destruct (H s).
Qed.

Lemma gtfs_color_to_kml_wrong_length (s : string) (default : color) :
  String.length (color_core s) <> 6%nat ->
  gtfs_color_to_kml (Some (VStr s)) default = default.
Proof.
  intros H. unfold gtfs_color_to_kml. fold (color_core s).
  apply Nat.eqb_neq in H. now rewrite H.
Qed.

Lemma gtfs_color_to_kml_bad_pair (s : string) (default : color) :
  int_of_string 16 (substring 0 2 (color_core s)) = None \/
  int_of_string 16 (substring 2 2 (color_core s)) = None \/
  int_of_string 16 (substring 4 2 (color_core s)) = None ->
  gtfs_color_to_kml (Some (VStr s)) default = default.
Proof.
  intros H. unfold gtfs_color_to_kml. fold (color_core s).
  destruct (negb _); [reflexivity|].
  destruct H as [H | [H | H]]; rewrite H.
  - reflexivity.
  - now destruct (int_of_string 16 (substring 0 2 (color_core s))).
  - destruct (int_of_string 16 (substring 0 2 (color_core s))); [|reflexivity].
    now destruct (int_of_string 16 (substring 2 2 (color_core s))).
Qed.

Lemma gtfs_color_to_kml_hex (s : string) (default : color) (c1 c2 c3 c4 c5 c6 : ascii) :
  color_core s = String c1 (String c2 (String c3 (String c4 (String c5 (String c6 ""))))) ->
  all_hex (color_core s) = true ->
  gtfs_color_to_kml (Some (VStr s)) default =
  Color_rgb (16 * hex_value c1 + hex_value c2)
            (16 * hex_value c3 + hex_value c4)
            (16 * hex_value c5 + hex_value c6).
Proof.
  intros E H. unfold gtfs_color_to_kml. fold (color_core s).
  rewrite E in *. cbn in H.
  repeat (apply Bool.andb_true_iff in H; destruct H as [? H]).
  cbn [String.length Nat.eqb negb substring].
  now rewrite !int_of_string_hex_pair.
Qed.

(** ** Facts about identifiers and sorting *)

Lemma ident_eqb_eq (a b : ident) : ident_eqb a b = true <-> a = b.
Proof.
  destruct a as [m|s], b as [n|t]; cbn; split; intros H; try discriminate H.
  - apply Z.eqb_eq in H. now subst.
  - injection H as ->. apply Z.eqb_refl.
  - apply String.eqb_eq in H. now subst.
  - injection H as ->. apply String.eqb_refl.
Qed.

Lemma ident_eqb_refl (a : ident) : ident_eqb a a = true.
Proof. now apply ident_eqb_eq. Qed.

Lemma ident_eqb_sym (a b : ident) : ident_eqb a b = ident_eqb b a.
Proof.
  destruct (ident_eqb a b) eqn:E.
  - apply ident_eqb_eq in E. subst. symmetry. apply ident_eqb_refl.
  - destruct (ident_eqb b a) eqn:E'; [|reflexivity].
    apply ident_eqb_eq in E'. subst. now rewrite ident_eqb_refl in E.
Qed.

Lemma mem_ident_In (k : ident) (l : list ident) : mem_ident k l = true <-> In k l.
Proof.
  unfold mem_ident. rewrite existsb_exists. split.
  - intros (x & Hx & E). apply ident_eqb_eq in E. now subst.
  - intros H. exists k. split; [assumption | apply ident_eqb_refl].
Qed.

Lemma ident_compare_spec (a b : ident) : CompSpec eq ident_lt a b (ident_compare a b).
Proof.
  destruct a as [m|s], b as [n|t]; cbn.
  - destruct (Z.compare_spec m n) as [E|L|G]; constructor; unfold ident_lt; cbn.
    + now subst.
    + now apply Z.compare_lt_iff.
    + now apply Z.compare_lt_iff.
  - now constructor.
  - now constructor.
  - destruct (String_as_OT.compare_spec s t) as [E|L|G]; constructor.
    + now rewrite E.
    + exact L.
    + exact G.
Qed.

Lemma ident_lt_irrefl (a : ident) : ~ ident_lt a a.
Proof.
  unfold ident_lt. destruct a as [m|s]; cbn.
  - rewrite Z.compare_refl. discriminate.
  - apply (StrictOrder_Irreflexive (R := String_as_OT.lt)).
Qed.

Lemma ident_lt_trans (a b c : ident) : ident_lt a b -> ident_lt b c -> ident_lt a c.
Proof.
  unfold ident_lt. destruct a as [m|s], b as [n|t], c as [p|u]; cbn; try congruence.
  - rewrite !Z.compare_lt_iff. lia.
  - apply (StrictOrder_Transitive (R := String_as_OT.lt)).
Qed.

Lemma ident_leb_refl (a : ident) : ident_leb a a = true.
Proof.
  unfold ident_leb. destruct (ident_compare_spec a a) as [_|_|G]; try reflexivity.
  now destruct (ident_lt_irrefl a).
Qed.

Lemma ident_ltb_leb (a b : ident) : ident_ltb a b = true -> ident_leb a b = true.
Proof.
  unfold ident_ltb, ident_leb. now destruct (ident_compare a b).
Qed.

Lemma ident_not_ltb_leb (a b : ident) : ident_ltb a b = false -> ident_leb b a = true.
Proof.
  unfold ident_ltb, ident_leb.
  destruct (ident_compare_spec a b) as [E|L|G]; intros H; try discriminate H.
  - subst. apply ident_leb_refl.
  - unfold ident_lt in G. now rewrite G.
Qed.

Lemma ident_leb_trans (a b c : ident) :
  ident_leb a b = true -> ident_leb b c = true -> ident_leb a c = true.
Proof.
  unfold ident_leb.
  destruct (ident_compare_spec a b) as [E|L|G]; intros H; try discriminate H; clear H.
  - now subst.
  - destruct (ident_compare_spec b c) as [E'|L'|G']; intros H; try discriminate H; clear H.
    + subst. unfold ident_lt in L. now rewrite L.
    + pose proof (ident_lt_trans _ _ _ L L') as T. unfold ident_lt in T. now rewrite T.
Qed.

Lemma insert_by_perm {A : Type} (before : A -> A -> bool) (x : A) (l : list A) :
  Permutation (x :: l) (insert_by before x l).
Proof.
  induction l as [|y l IH]; cbn.
  - apply Permutation_refl.
  - destruct (before y x).
    + eapply perm_trans; [apply perm_swap | now apply perm_skip].
    + apply Permutation_refl.
Qed.

Lemma stable_sort_perm {A : Type} (before : A -> A -> bool) (l : list A) :
  Permutation l (stable_sort before l).
Proof.
  induction l as [|x l IH]; cbn.
  - apply perm_nil.
  - eapply perm_trans; [apply perm_skip, IH | apply insert_by_perm].
Qed.

Lemma stable_sort_length {A : Type} (before : A -> A -> bool) (l : list A) :
  List.length (stable_sort before l) = List.length l.
Proof. symmetry. apply Permutation_length, stable_sort_perm. Qed.

Lemma stable_sort_In {A : Type} (before : A -> A -> bool) (l : list A) (x : A) :
  In x (stable_sort before l) <-> In x l.
Proof.
  split; apply Permutation_in; [apply Permutation_sym|]; apply stable_sort_perm.
Qed.

Lemma insert_ident_sorted (x : ident) (l : list ident) :
  StronglySorted (fun a b => ident_leb a b = true) l ->
  StronglySorted (fun a b => ident_leb a b = true) (insert_by ident_ltb x l).
Proof.
  induction 1 as [|y l S IH F]; cbn.
  - repeat constructor.
  - destruct (ident_ltb y x) eqn:E.
    + constructor; [exact IH|].
      apply ident_ltb_leb in E.
      rewrite Forall_forall in *. intros z Hz.
      apply (Permutation_in _ (Permutation_sym (insert_by_perm ident_ltb x l))) in Hz.
      destruct Hz as [<-|Hz]; [exact E | now apply F].
    + apply ident_not_ltb_leb in E.
      constructor; [now constructor|].
      constructor; [exact E|].
      rewrite Forall_forall in *. intros z Hz.
      eapply ident_leb_trans; [exact E | now apply F].
Qed.

Lemma stable_sort_ident_sorted (l : list ident) :
  StronglySorted (fun a b => ident_leb a b = true) (stable_sort ident_ltb l).
Proof.
  induction l as [|x l IH]; cbn.
  - constructor.
  - now apply insert_ident_sorted.
Qed.

Lemma unique_idents_aux_In (seen l : list ident) (k : ident) :
  In k (unique_idents_aux seen l) <-> In k l /\ ~ In k seen.
Proof.
  revert seen. induction l as [|x l IH]; intros seen; cbn.
  - tauto.
  - destruct (mem_ident x seen) eqn:E.
    + apply mem_ident_In in E. rewrite IH. split.
      * intros [H N]. tauto.
      * intros [[<-|H] N]; [contradiction | tauto].
    + assert (N : ~ In x seen) by (rewrite <- mem_ident_In, E; discriminate).
      cbn. rewrite IH. cbn. split.
      * intros [<-|[H M]]; tauto.
      * intros [[<-|H] M]; [now left|].
        destruct (ident_eqb x k) eqn:X.
        -- apply ident_eqb_eq in X. now left.
        -- right. split; [assumption|]. intros [->|S]; [|contradiction].
           now rewrite ident_eqb_refl in X.
Qed.

Lemma unique_idents_In (l : list ident) (k : ident) :
  In k (unique_idents l) <-> In k l.
Proof. unfold unique_idents. rewrite unique_idents_aux_In. cbn. tauto. Qed.

(** The first entry with the greatest count is the head of the descending
    order-preserving sort. *)
Lemma sort_values_desc_head (counts : list (ident * nat)) :
  hd_error (sort_values_desc counts) = first_max counts.
Proof.
  unfold sort_values_desc, stable_sort.
  induction counts as [|x l IH]; [reflexivity|].
  cbn [fold_right first_max]. rewrite <- IH.
  destruct (fold_right _ _ l) as [|y l']; cbn [insert_by hd_error]; [reflexivity|].
  now destruct (snd x <? snd y)%nat.
Qed.

Lemma first_max_split (counts : list (ident * nat)) :
  counts <> [] ->
  exists l1 b l2,
    counts = (l1 ++ b :: l2)%list /\ first_max counts = Some b /\
    Forall (fun z => snd z < snd b)%nat l1 /\
    Forall (fun z => snd z <= snd b)%nat l2.
Proof.
  induction counts as [|x l IH]; intros N; [contradiction|].
  destruct l as [|y l].
  - exists [], x, []. cbn. repeat split; constructor.
  - remember (y :: l) as l' eqn:El.
    destruct IH as (l1 & b & l2 & E & M & F1 & F2); [subst l'; discriminate|].
    cbn [first_max]. rewrite M.
    destruct (snd x <? snd b)%nat eqn:C.
    + apply Nat.ltb_lt in C.
      exists (x :: l1), b, l2. rewrite E. repeat split; try assumption.
      now constructor.
    + apply Nat.ltb_ge in C.
      exists [], x, l'. cbn. repeat split; [constructor|].
      rewrite E. apply Forall_app. split.
      * eapply Forall_impl; [|exact F1]. cbn. intros; lia.
      * constructor; [assumption|].
        eapply Forall_impl; [|exact F2]. cbn. intros; lia.
Qed.

Lemma count_ident_filter (ids : list ident) (st : list stop_time_row) (k : ident) :
  mem_ident k ids = true ->
  count_ident k (map st_trip_id (filter (fun r => mem_ident (st_trip_id r) ids) st))
  = stop_time_count st k.
Proof.
  intros M. unfold count_ident, stop_time_count.
  induction st as [|r st IH]; cbn; [reflexivity|].
  destruct (ident_eqb (st_trip_id r) k) eqn:E.
  - apply ident_eqb_eq in E. subst k. rewrite M. cbn.
    rewrite ident_eqb_refl. cbn. now rewrite IH.
  - destruct (mem_ident (st_trip_id r) ids); cbn; [|exact IH].
    rewrite ident_eqb_sym, E. exact IH.
Qed.

Lemma count_ident_pos (k : ident) (l : list ident) :
  In k l -> (0 < count_ident k l)%nat.
Proof.
  unfold count_ident. induction l as [|x l IH]; cbn; [contradiction|].
  intros [->|H].
  - rewrite ident_eqb_refl. cbn. lia.
  - destruct (ident_eqb k x); cbn; [lia | now apply IH].
Qed.

Lemma count_ident_zero (k : ident) (l : list ident) :
  ~ In k l -> count_ident k l = 0%nat.
Proof.
  unfold count_ident. induction l as [|x l IH]; cbn; [reflexivity|].
  intros N. destruct (ident_eqb k x) eqn:E.
  - apply ident_eqb_eq in E. subst. tauto.
  - apply IH. tauto.
Qed.

Lemma groupby_size_In (keys : list ident) (k : ident) (n : nat) :
  In (k, n) (groupby_size keys) <-> In k keys /\ n = count_ident k keys.
Proof.
  unfold groupby_size. rewrite in_map_iff. split.
  - intros (x & E & H). injection E as -> ->.
    apply (proj1 (stable_sort_In _ _ _)), (proj1 (unique_idents_In _ _)) in H.
    now split.
  - intros [H ->]. exists k. split; [reflexivity|].
    now apply (proj2 (stable_sort_In _ _ _)), (proj2 (unique_idents_In _ _)).
Qed.

(** ** The count table does not depend on the order of the rows *)

Lemma filter_perm {A : Type} (p : A -> bool) (l l' : list A) :
  Permutation l l' -> Permutation (filter p l) (filter p l').
Proof.
  induction 1 as [|x l l' P IH|x y l|l l' l'' P1 IH1 P2 IH2]; cbn.
  - apply perm_nil.
  - destruct (p x); [now apply perm_skip | exact IH].
  - destruct (p x), (p y); try apply Permutation_refl. apply perm_swap.
  - eapply perm_trans; eassumption.
Qed.

Lemma count_ident_perm (k : ident) (l l' : list ident) :
  Permutation l l' -> count_ident k l = count_ident k l'.
Proof.
  intros P. unfold count_ident. apply Permutation_length. now apply filter_perm.
Qed.

Lemma unique_idents_aux_NoDup (seen l : list ident) : NoDup (unique_idents_aux seen l).
Proof.
  revert seen. induction l as [|x l IH]; intros seen; cbn; [constructor|].
  destruct (mem_ident x seen); [apply IH|].
  constructor; [|apply IH].
  intros H. apply unique_idents_aux_In in H. destruct H as [_ H]. apply H. now left.
Qed.

Lemma ident_leb_antisym (a b : ident) :
  ident_leb a b = true -> ident_leb b a = true -> a = b.
Proof.
  unfold ident_leb.
  destruct (ident_compare_spec a b) as [E|L|G]; intros H1; try discriminate H1;
    [now intros _|].
  destruct (ident_compare_spec b a) as [E'|L'|G']; intros H2; try discriminate H2.
  - now symmetry.
  - destruct (ident_lt_irrefl a). eapply ident_lt_trans; eassumption.
Qed.

(** Two ascending lists without repetition that hold the same identifiers
    are the same list. *)
Lemma sorted_idents_unique (l1 l2 : list ident) :
  StronglySorted (fun a b => ident_leb a b = true) l1 -> NoDup l1 ->
  StronglySorted (fun a b => ident_leb a b = true) l2 -> NoDup l2 ->
  (forall k, In k l1 <-> In k l2) ->
  l1 = l2.
Proof.
  intros S1. revert l2.
  induction S1 as [|x l1 S1 IH F1]; intros l2 N1 S2 N2 E.
  - destruct l2 as [|y l2]; [reflexivity|].
    assert (H : In y []) by (apply E; now left). contradiction.
  - destruct S2 as [|y l2 S2 F2].
    + assert (H : In x []) by (apply E; now left). contradiction.
    + inversion N1 as [|? ? X1 N1']; subst. inversion N2 as [|? ? Y2 N2']; subst.
      rewrite Forall_forall in F1, F2.
      assert (Hy : In y (x :: l1)) by (apply E; now left).
      assert (Hx : In x (y :: l2)) by (apply E; now left).
      assert (x = y) as <-.
      { apply ident_leb_antisym.
        - destruct Hy as [<-|Hy]; [apply ident_leb_refl | now apply F1].
        - destruct Hx as [<-|Hx]; [apply ident_leb_refl | now apply F2]. }
      f_equal. apply IH; try assumption.
      intros k. split; intros H.
      * assert (H' : In k (x :: l2)) by (apply E; now right).
        destruct H' as [<-|H']; [contradiction | assumption].
      * assert (H' : In k (x :: l1)) by (apply E; now right).
        destruct H' as [<-|H']; [contradiction | assumption].
Qed.

Lemma groupby_size_perm (keys keys' : list ident) :
  Permutation keys keys' -> groupby_size keys = groupby_size keys'.
Proof.
  intros P. unfold groupby_size.
  replace (stable_sort ident_ltb (unique_idents keys'))
    with (stable_sort ident_ltb (unique_idents keys)).
  - apply map_ext. intros k. f_equal. now apply count_ident_perm.
  - apply sorted_idents_unique.
    + apply stable_sort_ident_sorted.
    + eapply Permutation_NoDup; [apply stable_sort_perm | apply unique_idents_aux_NoDup].
    + apply stable_sort_ident_sorted.
    + eapply Permutation_NoDup; [apply stable_sort_perm | apply unique_idents_aux_NoDup].
    + intros k. split; intros H.
      * apply (proj1 (stable_sort_In _ _ _)), (proj1 (unique_idents_In _ _)) in H.
        apply (proj2 (stable_sort_In _ _ _)), (proj2 (unique_idents_In _ _)).
        now apply (Permutation_in _ P).
      * apply (proj1 (stable_sort_In _ _ _)), (proj1 (unique_idents_In _ _)) in H.
        apply (proj2 (stable_sort_In _ _ _)), (proj2 (unique_idents_In _ _)).
        now apply (Permutation_in _ (Permutation_sym P)).
Qed.

(** The representative is the same for every order of the stop-time rows. *)
Lemma pick_representative_trip_id_perm
    (stop_times stop_times' : list stop_time_row) (trip_ids : list ident) :
  Permutation stop_times stop_times' ->
  pick_representative_trip_id stop_times trip_ids
  = pick_representative_trip_id stop_times' trip_ids.
Proof.
  intros P. unfold pick_representative_trip_id.
  pose proof (filter_perm (fun r => mem_ident (st_trip_id r) trip_ids) _ _ P) as Q.
  destruct (filter _ stop_times) as [|r st] eqn:E.
  - apply Permutation_nil in Q. now rewrite Q.
  - destruct (filter _ stop_times') as [|r' st'] eqn:E'.
    + apply Permutation_sym, Permutation_nil in Q. discriminate Q.
    + now rewrite (groupby_size_perm _ _ (Permutation_map st_trip_id Q)).
Qed.

(** ** Direction groups *)

Lemma trip_route_map_no_column (trips : trips_table) :
  trips_has_direction_id trips = false ->
  Forall (fun t => t_direction_id t = VInt 0) (trip_route_map trips).
Proof.
  intros H. unfold trip_route_map. rewrite H.
  apply Forall_forall. intros t Ht. apply in_map_iff in Ht.
  now destruct Ht as (t0 & <- & _).
Qed.

Lemma unique_aux_all_seen (v : value) (seen l : list value) :
  isna v = false -> In v seen -> Forall (eq v) l -> unique_aux seen l = [].
Proof.
  intros Nv S F. induction F as [|x l <- F IH]; cbn; [reflexivity|].
  replace (existsb (same_value v) seen) with true; [exact IH|].
  symmetry. apply existsb_exists. exists v. split; [assumption|].
  unfold same_value. destruct v as [n|x|s]; cbn.
  - now rewrite Z.eqb_refl.
  - destruct x as [[|]|[|]| |s m e]; cbn in *; try discriminate Nv; try reflexivity.
    unfold float_eqb, SFeqb, SFcompare.
    rewrite Z.compare_refl, Pos.compare_cont_refl. now destruct s.
  - now rewrite String.eqb_refl.
Qed.

Lemma directions_all_zero (route_trips : list trip_row) :
  route_trips <> [] ->
  Forall (fun t => t_direction_id t = VInt 0) route_trips ->
  directions_of route_trips = [VInt 0].
Proof.
  intros N F. unfold directions_of.
  destruct route_trips as [|t l]; [contradiction|].
  inversion F as [|? ? E F']; subst. cbn [map dropna filter]. rewrite E.
  cbn [isna negb unique unique_aux existsb].
  assert (D : dropna (map t_direction_id l) = map t_direction_id l).
  { clear - F'. induction F' as [|x l E F IH]; cbn; [reflexivity|].
    rewrite E. cbn. f_equal. exact IH. }
  fold (dropna (map t_direction_id l)). rewrite D.
  rewrite (unique_aux_all_seen (VInt 0)); try reflexivity.
  - now left.
  - apply Forall_forall. intros v Hv. apply in_map_iff in Hv.
    destruct Hv as (x & <- & Hx). rewrite Forall_forall in F'. symmetry. now apply F'.
Qed.

Lemma dir_trips_all_zero (route_trips : list trip_row) :
  Forall (fun t => t_direction_id t = VInt 0) route_trips ->
  dir_trips_of route_trips (VInt 0) = route_trips.
Proof.
  unfold dir_trips_of. induction 1 as [|t l E F IH]; cbn; [reflexivity|].
  rewrite E. cbn. now rewrite IH.
Qed.

Lemma value_eqb_nan (v d : value) : isna v = true -> value_eqb v d = false.
Proof.
  destruct v as [n|[s|s| |s m e]|t]; cbn; try discriminate; intros _.
  now destruct d.
Qed.

Lemma nan_in_no_group (route_trips : list trip_row) (t : trip_row) (d : value) :
  isna (t_direction_id t) = true -> ~ In t (dir_trips_of route_trips d).
Proof.
  intros N H. apply filter_In in H. destruct H as [_ H].
  now rewrite value_eqb_nan in H.
Qed.

Lemma unique_aux_incl (seen l : list value) (v : value) :
  In v (unique_aux seen l) -> In v l.
Proof.
  revert seen. induction l as [|x l IH]; intros seen; cbn; [tauto|].
  destruct (existsb _ seen); cbn; intros H.
  - right. now apply IH in H.
  - destruct H as [H|H]; [now left | right; now apply IH in H].
Qed.

Lemma directions_not_nan (route_trips : list trip_row) (d : value) :
  In d (directions_of route_trips) -> isna d = false.
Proof.
  unfold directions_of. intros H.
  apply (proj1 (stable_sort_In _ _ _)) in H.
  apply unique_aux_incl in H. apply filter_In in H.
  destruct H as [_ H]. now apply Bool.negb_true_iff in H.
Qed.

(** ** Deduplication of the stop sequence *)

Lemma drop_duplicates_aux_incl (seen : list ident) (rows : list merged_row) (r : merged_row) :
  In r (drop_duplicates_aux seen rows) -> In r rows /\ ~ In (m_stop_id r) seen.
Proof.
  revert seen. induction rows as [|x rows IH]; intros seen; cbn; [tauto|].
  destruct (mem_ident (m_stop_id x) seen) eqn:E.
  - intros H. apply IH in H. tauto.
  - intros [<-|H].
    + split; [now left|]. rewrite <- mem_ident_In, E. discriminate.
    + apply IH in H. cbn in H. tauto.
Qed.

Lemma drop_duplicates_aux_first (seen : list ident) (l1 l2 : list merged_row) (r : merged_row) :
  ~ In (m_stop_id r) seen ->
  ~ In (m_stop_id r) (map m_stop_id l1) ->
  exists seen',
    drop_duplicates_aux seen (l1 ++ r :: l2)
    = (drop_duplicates_aux seen l1 ++ r :: drop_duplicates_aux seen' l2)%list /\
    In (m_stop_id r) seen'.
Proof.
  revert seen. induction l1 as [|x l1 IH]; intros seen S N; cbn.
  - replace (mem_ident (m_stop_id r) seen) with false.
    + exists (m_stop_id r :: seen). split; [reflexivity | now left].
    + symmetry. apply Bool.not_true_is_false. now rewrite mem_ident_In.
  - cbn in N. destruct (mem_ident (m_stop_id x) seen).
    + apply IH; tauto.
    + destruct (IH (m_stop_id x :: seen)) as (seen' & E & I).
      * cbn. intros [H|H]; [|contradiction]. apply N. now left.
      * tauto.
      * exists seen'. now rewrite E.
Qed.

Lemma drop_duplicates_aux_keeps (seen : list ident) (rows : list merged_row) (k : ident) :
  In k (map m_stop_id rows) -> ~ In k seen ->
  In k (map m_stop_id (drop_duplicates_aux seen rows)).
Proof.
  revert seen. induction rows as [|x rows IH]; intros seen; cbn; [tauto|].
  intros H N. destruct (mem_ident (m_stop_id x) seen) eqn:E.
  - apply mem_ident_In in E. destruct H as [H|H]; [subst k; contradiction | now apply IH].
  - cbn. destruct H as [H|H]; [now left|].
    destruct (ident_eqb (m_stop_id x) k) eqn:X.
    + left. now apply ident_eqb_eq.
    + right. apply IH; [assumption|]. intros [Y|S]; [|contradiction].
      rewrite Y, ident_eqb_refl in X. discriminate X.
Qed.

Lemma count_rows_absent (k : ident) (rows : list merged_row) :
  ~ In k (map m_stop_id rows) ->
  filter (fun x => ident_eqb (m_stop_id x) k) rows = [].
Proof.
  induction rows as [|x rows IH]; cbn; [reflexivity|].
  intros N. destruct (ident_eqb (m_stop_id x) k) eqn:E.
  - apply ident_eqb_eq in E. tauto.
  - apply IH. tauto.
Qed.

Lemma drop_duplicates_first_occurrence (l1 l2 : list merged_row) (r : merged_row) :
  ~ In (m_stop_id r) (map m_stop_id l1) ->
  exists tail,
    drop_duplicates (l1 ++ r :: l2) = (drop_duplicates l1 ++ r :: tail)%list /\
    ~ In (m_stop_id r) (map m_stop_id (drop_duplicates l1)) /\
    ~ In (m_stop_id r) (map m_stop_id tail) /\
    filter (fun x => ident_eqb (m_stop_id x) (m_stop_id r)) (drop_duplicates (l1 ++ r :: l2)) = [r].
Proof.
  intros N. unfold drop_duplicates.
  destruct (drop_duplicates_aux_first [] l1 l2 r) as (seen' & E & I); [tauto | assumption |].
  exists (drop_duplicates_aux seen' l2).
  assert (N1 : ~ In (m_stop_id r) (map m_stop_id (drop_duplicates_aux [] l1))).
  { intros H. apply in_map_iff in H. destruct H as (x & Ex & Hx).
    apply drop_duplicates_aux_incl in Hx. destruct Hx as [Hx _].
    apply N. rewrite <- Ex. now apply in_map. }
  assert (N2 : ~ In (m_stop_id r) (map m_stop_id (drop_duplicates_aux seen' l2))).
  { intros H. apply in_map_iff in H. destruct H as (x & Ex & Hx).
    apply drop_duplicates_aux_incl in Hx. destruct Hx as [_ Hx].
    apply Hx. now rewrite Ex. }
  repeat split; try assumption.
  rewrite E, filter_app. cbn [filter]. rewrite ident_eqb_refl.
  now rewrite !count_rows_absent.
Qed.

(** ** The rail overlay *)

Lemma prefix_lower (sub s : string) :
  lower sub = sub -> prefix sub (lower s) = prefix_ci sub s.
Proof.
  revert s. induction sub as [|a sub IH]; intros s L.
  - now destruct s.
  - cbn in L. injection L as La Ls.
    destruct s as [|b s]; [reflexivity|].
    cbn [lower prefix prefix_ci]. rewrite La, (IH s Ls).
    destruct (ascii_dec a (lower_char b)) as [E|N].
    + rewrite <- E, Ascii.eqb_refl. reflexivity.
    + apply Ascii.eqb_neq in N. now rewrite N.
Qed.

(** Looking for a lower-case text in [s.lower()] ignores the case of [s]. *)
Lemma contains_lower (sub s : string) :
  lower sub = sub -> contains sub (lower s) = contains_ci sub s.
Proof.
  intros L. induction s as [|b s IH].
  - pose proof (prefix_lower sub "" L) as P. cbn [lower] in P.
    cbn [lower contains contains_ci]. now rewrite P.
  - pose proof (prefix_lower sub (String b s) L) as P. cbn [lower] in P.
    cbn [lower contains contains_ci]. now rewrite P, IH.
Qed.

Lemma add_metro_lines_groups (metro_lines : list (string * list coord)) (d : kml_doc) :
  fwd_group_folder (add_metro_lines d metro_lines)
  = (fwd_group_folder d ++ map metro_fwd_folder metro_lines)%list /\
  bwd_group_folder (add_metro_lines d metro_lines)
  = (bwd_group_folder d ++ map metro_bwd_folder metro_lines)%list /\
  stops_group_folder (add_metro_lines d metro_lines) = stops_group_folder d.
Proof.
  unfold add_metro_lines. revert d.
  induction metro_lines as [|[name coords] l IH]; intros d; cbn [fold_left map].
  - now rewrite !app_nil_r.
  - destruct (IH (add_metro_line d (name, coords))) as (F & B & S).
    rewrite F, B, S. cbn. now rewrite <- !app_assoc.
Qed.

Lemma count_lines_metro (metro_lines : list (string * list coord)) :
  list_sum (map count_lines (map metro_fwd_folder metro_lines)) = List.length metro_lines /\
  list_sum (map count_lines (map metro_bwd_folder metro_lines)) = List.length metro_lines.
Proof.
  induction metro_lines as [|x l [IHf IHb]]; [now split|].
  unfold list_sum in *. cbn [map fold_right List.length].
  rewrite IHf, IHb. now split.
Qed.

(** ** Packaging *)

Lemma save_output_kml (now : Z * Z * Z * Z * Z * Z) (d : kml_doc) :
  save_output now "kml" d = encode_utf8 (kml_text (root_folder d)).
Proof. reflexivity. Qed.

(** ** Lines and stops of a direction *)

Lemma sort_values_length {A : Type} (key : A -> value) (rows : list A) :
  List.length (sort_values key rows) = List.length rows.
Proof.
  unfold sort_values. rewrite length_app, stable_sort_length.
  induction rows as [|r rows IH]; cbn; [reflexivity|].
  destruct (isna (key r)); cbn; lia.
Qed.

Lemma sort_values_In {A : Type} (key : A -> value) (rows : list A) (x : A) :
  In x (sort_values key rows) <-> In x rows.
Proof.
  unfold sort_values. rewrite in_app_iff. split.
  - intros [H|H].
    + apply (proj1 (stable_sort_In _ _ _)) in H. now apply filter_In in H.
    + now apply filter_In in H.
  - intros H. destruct (isna (key x)) eqn:E.
    + right. apply filter_In. now split.
    + left. apply (proj2 (stable_sort_In _ _ _)). apply filter_In. split; [assumption|].
      now rewrite E.
Qed.

Lemma astype_float_length (col : list value) (xs : list float) :
  astype_float col = Ok xs -> List.length xs = List.length col.
Proof.
  revert xs. induction col as [|v col IH]; cbn; intros xs H.
  - now injection H as <-.
  - destruct (float_of_value v); [|discriminate H].
    destruct (astype_float col) as [ys|e]; cbn in H; [|discriminate H].
    injection H as <-. cbn. now rewrite (IH ys).
Qed.

(** A shape yields one point per row. *)
Lemma shape_points_length (g : feed) (shape_id : ident) (coords : list coord) :
  shape_points g shape_id = Ok coords ->
  List.length coords = List.length (shape_rows g shape_id).
Proof.
  unfold shape_points, shape_coords. intros H.
  destruct (astype_float (map sh_shape_pt_lon _)) as [lons|e] eqn:E1; cbn in H; [|discriminate H].
  destruct (astype_float (map sh_shape_pt_lat _)) as [lats|e] eqn:E2; cbn in H; [|discriminate H].
  injection H as <-.
  apply astype_float_length in E1, E2.
  rewrite length_map, sort_values_length in E1, E2.
  unfold coord. rewrite length_combine. lia.
Qed.

Lemma add_points_paths (dir_int d : Z) (pts : list feature) (rf : route_folders) :
  path_folder d (add_points dir_int pts rf) = path_folder d rf /\
  other_path_folder d (add_points dir_int pts rf) = other_path_folder d rf.
Proof.
  unfold path_folder, other_path_folder, add_points.
  destruct (dir_int =? 0), (d =? 0); now split.
Qed.

Lemma add_line_paths (dir_int : Z) (ls : feature) (rf : route_folders) :
  path_folder dir_int (add_line dir_int ls rf) = (path_folder dir_int rf ++ [ls])%list /\
  other_path_folder dir_int (add_line dir_int ls rf) = other_path_folder dir_int rf /\
  route_stops_fwd_folder (add_line dir_int ls rf) = route_stops_fwd_folder rf /\
  route_stops_bwd_folder (add_line dir_int ls rf) = route_stops_bwd_folder rf.
Proof.
  unfold path_folder, other_path_folder, add_line.
  destruct (dir_int =? 0); repeat split.
Qed.

(** What [process_direction] does once the shape of the first trip of the
    group has given its points. *)
Lemma process_direction_with_points
    (g : feed) (route_name : string) (line_color stop_icon_color : color)
    (route_trips : list trip_row) (direction : value) (rf : route_folders)
    (rep_trip_row : trip_row) (rest : list trip_row) (shape_id : ident)
    (coords : list coord) :
  dir_trips_of route_trips direction = rep_trip_row :: rest ->
  t_shape_id rep_trip_row = Some shape_id ->
  shape_points g shape_id = Ok coords ->
  process_direction g route_name line_color stop_icon_color route_trips direction rf =
  if (List.length coords <? 2)%nat then Ok rf
  else
    let rf1 := add_line (dir_int_of direction)
                        (direction_line route_name direction coords line_color) rf in
    match pick_representative_trip_id
            (stop_times g) (unique_idents (map t_trip_id (rep_trip_row :: rest))) with
    | None => Ok rf1
    | Some rep_trip_id =>
        match get_ordered_stops_for_trip (stop_times g) (stops g) rep_trip_id with
        | [] => Ok rf1
        | ordered =>
            Ok (add_points (dir_int_of direction)
                           (stop_points stop_icon_color (drop_duplicates ordered)) rf1)
        end
    end.
Proof.
  intros D S P. unfold process_direction. rewrite D, S.
  unfold shape_points, shape_rows in P.
  destruct (filter _ (shapes g)) as [|p ps] eqn:F.
  - cbn in P. injection P as <-. reflexivity.
  - rewrite P. reflexivity.
Qed.

Lemma mem_ident_unique (k : ident) (l : list ident) :
  mem_ident k (unique_idents l) = mem_ident k l.
Proof.
  destruct (mem_ident k l) eqn:E.
  - apply (proj2 (mem_ident_In _ _)), (proj2 (unique_idents_In _ _)).
    now apply (proj1 (mem_ident_In _ _)).
  - apply Bool.not_true_is_false. intros H.
    apply (proj1 (mem_ident_In _ _)), (proj1 (unique_idents_In _ _)) in H.
    apply (proj2 (mem_ident_In _ _)) in H. congruence.
Qed.

Lemma pick_representative_trip_id_none
    (stop_times : list stop_time_row) (trip_ids : list ident) :
  (forall r, In r stop_times -> mem_ident (st_trip_id r) trip_ids = false) ->
  pick_representative_trip_id stop_times trip_ids = None.
Proof.
  intros H. unfold pick_representative_trip_id.
  replace (filter _ stop_times) with (@nil stop_time_row); [reflexivity|].
  symmetry. induction stop_times as [|r st IH]; cbn; [reflexivity|].
  rewrite (H r) by now left. apply IH. intros r' Hr. apply H. now right.
Qed.

(** ** Stops that the stops table does not know *)

Lemma keep_some_In {A B : Type} (f : A -> option B) (l : list A) (a : A) (b : B) :
  In a l -> f a = Some b -> In b (keep_some f l).
Proof.
  intros H E. induction l as [|x l IH]; cbn; [contradiction|].
  destruct H as [->|H].
  - rewrite E. now left.
  - destruct (f x); [right|]; now apply IH.
Qed.


(** The rows that the join makes of a stop-time row whose stop is unknown
    carry NaN in the three stop columns. *)
Lemma merge_left_unmatched
    (st : list stop_time_row) (stops : stops_table) (row : merged_row) :
  In row (merge_left st stops) ->
  (forall s, In s (stops_rows stops) -> ident_eqb (s_stop_id s) (m_stop_id row) = false) ->
  m_stop_lon row = NaN /\ m_stop_lat row = NaN /\
  m_stop_name row = (if stops_has_stop_name stops then Some NaN else None).
Proof.
  unfold merge_left. intros H U. apply in_flat_map in H.
  destruct H as (r & Hr & H).
  destruct (filter _ (stops_rows stops)) as [|s found] eqn:F.
  - destruct H as [<-|[]]. now cbn.
  - exfalso. apply in_map_iff in H. destruct H as (s' & <- & Hs').
    rewrite <- F in Hs'. apply filter_In in Hs'. destruct Hs' as [I E].
    cbn in U. rewrite (U s' I) in E. discriminate E.
Qed.

Lemma merge_left_stop_ids (st : list stop_time_row) (stops : stops_table) (r : stop_time_row) :
  In r st -> In (st_stop_id r) (map m_stop_id (merge_left st stops)).
Proof.
  intros H. unfold merge_left. apply in_map_iff.
  destruct (filter (fun s => ident_eqb (s_stop_id s) (st_stop_id r)) (stops_rows stops))
    as [|s found] eqn:F.
  - eexists. split; [|apply in_flat_map; exists r; split; [exact H|rewrite F; now left]].
    reflexivity.
  - eexists. split; [|apply in_flat_map; exists r; split; [exact H|rewrite F; now left]].
    reflexivity.
Qed.

(** A stop-time row of the trip with a numeric sequence is among the rows
    that are joined. *)
Lemma sequenced_stop_times_In
    (stop_times : list stop_time_row) (trip_id : ident) (r : stop_time_row) :
  In r stop_times -> st_trip_id r = trip_id ->
  isna (to_numeric (st_stop_sequence r)) = false ->
  exists r', In r' (sequenced_stop_times stop_times trip_id) /\ st_stop_id r' = st_stop_id r.
Proof.
  intros H T N. unfold sequenced_stop_times.
  eexists. split.
  - apply sort_values_In, filter_In. split.
    + apply in_map_iff. exists r. split; [reflexivity|].
      apply filter_In. split; [exact H|]. rewrite T. apply ident_eqb_refl.
    + cbn. now rewrite N.
  - reflexivity.
Qed.

(** ** The properties *)

(** C1 (amended): without a [direction_id] column every trip of a route is
    in the one direction group 0, labelled FWD; a trip whose own direction
    cell is NaN is in no direction group, and NaN is not among the
    directions that are processed. *)
Theorem direction_groups_of_missing_indicator
    (trips : trips_table) (route_id : ident) (t : trip_row) :
  In t (route_trips_of (trip_route_map trips) route_id) ->
  (trips_has_direction_id trips = false ->
     directions_of (route_trips_of (trip_route_map trips) route_id) = [VInt 0] /\
     In t (dir_trips_of (route_trips_of (trip_route_map trips) route_id) (VInt 0)) /\
     dir_label_of (dir_int_of (VInt 0)) = "FWD") /\
  (isna (t_direction_id t) = true ->
     ~ In (t_direction_id t) (directions_of (route_trips_of (trip_route_map trips) route_id)) /\
     forall d, ~ In t (dir_trips_of (route_trips_of (trip_route_map trips) route_id) d)).
Proof.
  intros H. split.
  - intros C.
    assert (F : Forall (fun x => t_direction_id x = VInt 0)
                       (route_trips_of (trip_route_map trips) route_id)).
    { apply Forall_forall. intros x Hx. apply filter_In in Hx. destruct Hx as [Hx _].
      pose proof (trip_route_map_no_column trips C) as A.
      rewrite Forall_forall in A. now apply A. }
    split; [|split].
    + apply directions_all_zero; [|exact F]. intros E. now rewrite E in H.
    + now rewrite dir_trips_all_zero.
    + reflexivity.
  - intros N. split.
    + intros I. apply directions_not_nan in I. congruence.
    + intros d. now apply nan_in_no_group.
Qed.

(** C2 (amended): when the group has a stop-time row, the representative
    is a trip of the group with the greatest number of stop-time rows; a tie
    is not broken by the order of the rows: the choice is read off the count
    table and is the same for every order of the rows of the stop-times. *)
Theorem representative_trip_has_most_rows
    (stop_times : list stop_time_row) (trip_ids : list ident) :
  (exists r, In r stop_times /\ mem_ident (st_trip_id r) trip_ids = true) ->
  exists rep,
    pick_representative_trip_id stop_times trip_ids = Some rep /\
    mem_ident rep trip_ids = true /\
    (0 < stop_time_count stop_times rep)%nat /\
    (forall t, mem_ident t trip_ids = true ->
       (stop_time_count stop_times t <= stop_time_count stop_times rep)%nat) /\
    (forall stop_times', Permutation stop_times stop_times' ->
       pick_representative_trip_id stop_times' trip_ids = Some rep).
Proof.
  intros (r0 & R0 & M0).
  assert (PI : forall stop_times', Permutation stop_times stop_times' ->
               pick_representative_trip_id stop_times' trip_ids
               = pick_representative_trip_id stop_times trip_ids).
  { intros st' P. symmetry. now apply pick_representative_trip_id_perm. }
  revert PI. unfold pick_representative_trip_id at 2 3.
  set (st := filter (fun r => mem_ident (st_trip_id r) trip_ids) stop_times).
  assert (I0 : In r0 st) by (apply filter_In; now split).
  set (keys := map st_trip_id st).
  assert (K0 : In (st_trip_id r0) keys) by now apply in_map.
  assert (KM : forall k, In k keys -> mem_ident k trip_ids = true).
  { intros k H. apply in_map_iff in H. destruct H as (r & <- & H).
    now apply filter_In in H. }
  assert (CT : forall k, mem_ident k trip_ids = true ->
                         count_ident k keys = stop_time_count stop_times k).
  { intros k H. now apply count_ident_filter. }
  assert (N : groupby_size keys <> []).
  { intros E.
    assert (H : In (st_trip_id r0, count_ident (st_trip_id r0) keys) (groupby_size keys))
      by now apply groupby_size_In.
    now rewrite E in H. }
  destruct (first_max_split _ N) as (l1 & [k c] & l2 & E & FM & F1 & F2).
  pose proof (sort_values_desc_head (groupby_size keys)) as HD.
  rewrite FM in HD.
  assert (B : In (k, c) (groupby_size keys)) by (rewrite E; apply in_elt).
  apply groupby_size_In in B. destruct B as [Bk Bc].
  destruct st as [|r1 st'] eqn:Est; [contradiction|].
  destruct (sort_values_desc (groupby_size keys)) as [|[k' c'] rest]; [discriminate|].
  cbn in HD. injection HD as -> ->.
  intros PI. exists k.
  assert (Ck : c = stop_time_count stop_times k) by (rewrite Bc; now apply CT, KM).
  split; [reflexivity|]. split; [now apply KM|].
  split; [rewrite <- Ck, Bc; now apply count_ident_pos|].
  split; [|exact PI].
  intros t Mt. rewrite <- Ck.
  destruct (in_dec (fun a b => Bool.reflect_dec _ _ (iff_reflect _ _ (iff_sym (ident_eqb_eq a b))))
                   t keys) as [Ht|Ht].
  - assert (Lt : In (t, stop_time_count stop_times t) (l1 ++ (k, c) :: l2)).
    { rewrite <- E. apply groupby_size_In. split; [assumption|]. symmetry. now apply CT. }
    apply in_app_or in Lt. rewrite Forall_forall in F1, F2.
    destruct Lt as [Lt|[Lt|Lt]].
    + apply F1 in Lt. cbn in Lt. lia.
    + injection Lt as _ <-. lia.
    + apply F2 in Lt. exact Lt.
  - rewrite <- (CT t Mt), (count_ident_zero t keys Ht). lia.
Qed.

(** C3: a name element whose text is only whitespace gives the empty name,
    not "Metro Segment"; the default is used when the element is absent or
    has no text. *)
Theorem placemark_name_of_blank_text :
  placemark_name {| pm_name := Some (Element (Some "   ")); pm_line_string := None |} = "" /\
  (forall ls, placemark_name {| pm_name := None; pm_line_string := ls |} = "Metro Segment") /\
  (forall ls, placemark_name {| pm_name := Some (Element None); pm_line_string := ls |}
              = "Metro Segment") /\
  (forall ls, placemark_name {| pm_name := Some (Element (Some "")); pm_line_string := ls |}
              = "Metro Segment").
Proof. repeat split. Qed.

(** C4: every rail segment adds one folder with one line to the forward
    group, with its coordinates as read, and one to the backward group, with
    the coordinates reversed; both lines have width 5 and the colour of the
    name (red when it contains "red" in any case, else RGB(255,165,0) when
    it contains "orange" in any case, else white); nothing else is added. *)
Theorem rail_segments_emitted_twice (d : kml_doc) (metro_lines : list (string * list coord)) :
  fwd_group_folder (add_metro_lines d metro_lines)
  = (fwd_group_folder d ++
     map (fun line => Folder (fst line)
                        [LineString (fst line) (snd line) 5 (metro_color (fst line))])
         metro_lines)%list /\
  bwd_group_folder (add_metro_lines d metro_lines)
  = (bwd_group_folder d ++
     map (fun line => Folder (fst line)
                        [LineString (fst line) (rev (snd line)) 5 (metro_color (fst line))])
         metro_lines)%list /\
  stops_group_folder (add_metro_lines d metro_lines) = stops_group_folder d /\
  count_lines (root_folder (add_metro_lines d metro_lines))
  = (count_lines (root_folder d) + 2 * List.length metro_lines)%nat /\
  (forall name,
     metro_color name =
     if contains_ci "red" name then Color_red
     else if contains_ci "orange" name then Color_rgb 255 165 0
     else Color_white).
Proof.
  destruct (add_metro_lines_groups metro_lines d) as (F & B & S).
  repeat split; try assumption.
  - unfold root_folder. cbn [count_lines map]. rewrite F, B, S.
    destruct (count_lines_metro metro_lines) as [Cf Cb].
    unfold list_sum in *. cbn [fold_right].
    fold (list_sum (map count_lines (fwd_group_folder d ++ map metro_fwd_folder metro_lines))).
    fold (list_sum (map count_lines (bwd_group_folder d ++ map metro_bwd_folder metro_lines))).
    fold (list_sum (map count_lines (fwd_group_folder d))).
    fold (list_sum (map count_lines (bwd_group_folder d))).
    rewrite !map_app, !list_sum_app.
    unfold list_sum. rewrite Cf, Cb. lia.
  - intros name. unfold metro_color.
    now rewrite !contains_lower.
Qed.

(** C5: for any format other than "kml" the output is the archive whose
    only member is [doc.kml], deflated, holding exactly the bytes that the
    "kml" format returns for the same inputs; an error is the same error. *)
Theorem packaged_output_wraps_markup
    (gtfs_url github_token output_format : string)
    (g : feed) (metro : option (list placemark)) (now : Z * Z * Z * Z * Z * Z) :
  output_format <> "kml" ->
  generate_kmz_file gtfs_url github_token output_format g metro now =
  let* kml_bytes := generate_kmz_file gtfs_url github_token "kml" g metro now in
  Ok (zip_bytes [ {| zm_filename := "doc.kml";
                     zm_date_time := now;
                     zm_compress_type := ZIP_DEFLATED;
                     zm_data := kml_bytes |} ]).
Proof.
  intros N. unfold generate_kmz_file.
  destruct (negb (truthy gtfs_url)); [reflexivity|].
  destruct (negb (truthy github_token)); [reflexivity|].
  destruct (build_routes g) as [d|e]; [|reflexivity].
  destruct metro as [placemarks|]; [|reflexivity].
  cbn [bind]. unfold save_output.
  apply String.eqb_neq in N. rewrite N. reflexivity.
Qed.

(** C6 (amended): the resolver returns the fallback when the value is not
    a string, when the text left after stripping the surrounding whitespace
    and every leading [#] is not 6 characters long, and when one of its
    three pairs of characters does not read as a base-16 integer; when that
    text is six hexadecimal digits it returns the colour of the three
    pairs. *)
Theorem gtfs_color_to_kml_resolves (default : color) :
  (forall v, (forall s, v <> Some (VStr s)) -> gtfs_color_to_kml v default = default) /\
  (forall s, String.length (color_core s) <> 6%nat ->
             gtfs_color_to_kml (Some (VStr s)) default = default) /\
  (forall s, int_of_string 16 (substring 0 2 (color_core s)) = None \/
             int_of_string 16 (substring 2 2 (color_core s)) = None \/
             int_of_string 16 (substring 4 2 (color_core s)) = None ->
             gtfs_color_to_kml (Some (VStr s)) default = default) /\
  (forall s c1 c2 c3 c4 c5 c6,
     color_core s = String c1 (String c2 (String c3 (String c4 (String c5 (String c6 ""))))) ->
     all_hex (color_core s) = true ->
     gtfs_color_to_kml (Some (VStr s)) default =
     Color_rgb (16 * hex_value c1 + hex_value c2)
               (16 * hex_value c3 + hex_value c4)
               (16 * hex_value c5 + hex_value c6)).
Proof.
  split; [|split; [|split]].
  - intros v H. now apply gtfs_color_to_kml_not_str.
  - intros s H. now apply gtfs_color_to_kml_wrong_length.
  - intros s H. now apply gtfs_color_to_kml_bad_pair.
  - intros s c1 c2 c3 c4 c5 c6 E H. now apply gtfs_color_to_kml_hex.
Qed.

(** C7: once the shape of the group's first trip has given its points,
    fewer than 2 of them leave the folders of the route as they were, and 2
    or more add the line of the direction, with those points, width 4 and
    the line colour, to the path folder of the direction. *)
Theorem line_needs_two_points
    (g : feed) (route_name : string) (line_color stop_icon_color : color)
    (route_trips : list trip_row) (direction : value) (rf : route_folders)
    (rep_trip_row : trip_row) (rest : list trip_row) (shape_id : ident)
    (coords : list coord) :
  dir_trips_of route_trips direction = rep_trip_row :: rest ->
  t_shape_id rep_trip_row = Some shape_id ->
  shape_points g shape_id = Ok coords ->
  ((List.length coords < 2)%nat ->
     process_direction g route_name line_color stop_icon_color route_trips direction rf
     = Ok rf) /\
  ((2 <= List.length coords)%nat ->
     exists rf',
       process_direction g route_name line_color stop_icon_color route_trips direction rf
       = Ok rf' /\
       path_folder (dir_int_of direction) rf'
       = (path_folder (dir_int_of direction) rf
          ++ [LineString (route_name ++ " " ++ dir_label_of (dir_int_of direction))
                         coords 4 line_color])%list /\
       other_path_folder (dir_int_of direction) rf'
       = other_path_folder (dir_int_of direction) rf).
Proof.
  intros D S P.
  rewrite (process_direction_with_points _ _ _ _ _ _ _ _ _ _ _ D S P).
  split; intros L.
  - apply Nat.ltb_lt in L. now rewrite L.
  - apply Nat.ltb_ge in L. rewrite L. cbv zeta.
    destruct (add_line_paths (dir_int_of direction)
                (direction_line route_name direction coords line_color) rf)
      as (A1 & A2 & _ & _).
    destruct (pick_representative_trip_id _ _) as [rep|].
    + destruct (get_ordered_stops_for_trip _ _ rep) as [|row ordered].
      * eexists. split; [reflexivity|]. now split.
      * eexists. split; [reflexivity|].
        destruct (add_points_paths (dir_int_of direction) (dir_int_of direction)
                    (stop_points stop_icon_color (drop_duplicates (row :: ordered)))
                    (add_line (dir_int_of direction)
                       (direction_line route_name direction coords line_color) rf))
          as [B1 B2].
        rewrite B1, B2. now split.
    + eexists. split; [reflexivity|]. now split.
Qed.

(** C8: a stop of the ordered stop-times of a trip is kept once by the
    deduplication: the row of its first occurrence stays, right after the
    deduplicated rows that precede it, and no other row of that stop is
    kept. *)
Theorem stop_kept_at_first_occurrence
    (stop_times : list stop_time_row) (stops : stops_table) (trip_id : ident)
    (l1 l2 : list merged_row) (r : merged_row) :
  get_ordered_stops_for_trip stop_times stops trip_id = (l1 ++ r :: l2)%list ->
  ~ In (m_stop_id r) (map m_stop_id l1) ->
  exists tail,
    drop_duplicates (get_ordered_stops_for_trip stop_times stops trip_id)
    = (drop_duplicates l1 ++ r :: tail)%list /\
    ~ In (m_stop_id r) (map m_stop_id (drop_duplicates l1)) /\
    ~ In (m_stop_id r) (map m_stop_id tail) /\
    filter (fun x => ident_eqb (m_stop_id x) (m_stop_id r))
           (drop_duplicates (get_ordered_stops_for_trip stop_times stops trip_id)) = [r].
Proof.
  intros E N. rewrite E. now apply drop_duplicates_first_occurrence.
Qed.

(** C9: when the shape gives 2 or more points and no stop-time row belongs
    to a trip of the group, the line is added to the path folder of the
    direction and the stops folders stay as they were. *)
Theorem line_emitted_without_stop_times
    (g : feed) (route_name : string) (line_color stop_icon_color : color)
    (route_trips : list trip_row) (direction : value) (rf : route_folders)
    (rep_trip_row : trip_row) (rest : list trip_row) (shape_id : ident)
    (coords : list coord) :
  dir_trips_of route_trips direction = rep_trip_row :: rest ->
  t_shape_id rep_trip_row = Some shape_id ->
  shape_points g shape_id = Ok coords ->
  (2 <= List.length coords)%nat ->
  (forall r, In r (stop_times g) ->
     mem_ident (st_trip_id r) (map t_trip_id (dir_trips_of route_trips direction)) = false) ->
  exists rf',
    process_direction g route_name line_color stop_icon_color route_trips direction rf
    = Ok rf' /\
    path_folder (dir_int_of direction) rf'
    = (path_folder (dir_int_of direction) rf
       ++ [LineString (route_name ++ " " ++ dir_label_of (dir_int_of direction))
                      coords 4 line_color])%list /\
    other_path_folder (dir_int_of direction) rf'
    = other_path_folder (dir_int_of direction) rf /\
    route_stops_fwd_folder rf' = route_stops_fwd_folder rf /\
    route_stops_bwd_folder rf' = route_stops_bwd_folder rf.
Proof.
  intros D S P L Z.
  rewrite (process_direction_with_points _ _ _ _ _ _ _ _ _ _ _ D S P).
  apply Nat.ltb_ge in L. rewrite L. cbv zeta.
  rewrite pick_representative_trip_id_none.
  - eexists. split; [reflexivity|]. apply add_line_paths.
  - intros r Hr. rewrite mem_ident_unique, <- D. now apply Z.
Qed.

(** C10 (amended): a stop-time row of the trip whose sequence is numeric
    and whose stop no row of the stops table has is joined with NaN
    coordinates; NaN converts to a float, and the point of that stop, with
    NaN coordinates, is among the points; a row of the deduplicated sequence
    gives no point only when its longitude or latitude does not convert. *)
Theorem unmatched_stop_point_has_nan_coordinates
    (stop_times : list stop_time_row) (stops : stops_table) (trip_id : ident)
    (stop_icon_color : color) (r : stop_time_row) :
  In r stop_times ->
  st_trip_id r = trip_id ->
  isna (to_numeric (st_stop_sequence r)) = false ->
  (forall s, In s (stops_rows stops) -> ident_eqb (s_stop_id s) (st_stop_id r) = false) ->
  (exists row,
     In row (drop_duplicates (get_ordered_stops_for_trip stop_times stops trip_id)) /\
     m_stop_id row = st_stop_id r /\ m_stop_lon row = NaN /\ m_stop_lat row = NaN) /\
  float_of_value NaN = Some nan /\
  In (Point (if stops_has_stop_name stops then "nan" else ident_str (st_stop_id r))
            [(nan, nan)] scale_0_8 stop_icon_color)
     (stop_points stop_icon_color
        (drop_duplicates (get_ordered_stops_for_trip stop_times stops trip_id))) /\
  (forall row,
     In row (drop_duplicates (get_ordered_stops_for_trip stop_times stops trip_id)) ->
     float_of_value (m_stop_lon row) = None \/
     float_of_value (m_stop_lat row) = None \/
     exists p, stop_point stop_icon_color row = Some p /\
               In p (stop_points stop_icon_color
                       (drop_duplicates (get_ordered_stops_for_trip stop_times stops trip_id)))).
Proof.
  intros H T N U.
  assert (G : get_ordered_stops_for_trip stop_times stops trip_id
              = merge_left (sequenced_stop_times stop_times trip_id) stops).
  { unfold get_ordered_stops_for_trip.
    destruct (filter _ stop_times) as [|x l] eqn:F; [|reflexivity].
    assert (I : In r (filter (fun r => ident_eqb (st_trip_id r) trip_id) stop_times)).
    { apply filter_In. split; [exact H|]. rewrite T. apply ident_eqb_refl. }
    now rewrite F in I. }
  destruct (sequenced_stop_times_In stop_times trip_id r H T N) as (r' & I' & E').
  pose proof (merge_left_stop_ids _ stops r' I') as K. rewrite E', <- G in K.
  apply (drop_duplicates_aux_keeps []) in K; [|tauto].
  fold (drop_duplicates (get_ordered_stops_for_trip stop_times stops trip_id)) in K.
  apply in_map_iff in K. destruct K as (row & Er & Ir).
  assert (M : In row (merge_left (sequenced_stop_times stop_times trip_id) stops)).
  { rewrite <- G. now apply (drop_duplicates_aux_incl [] _ row). }
  destruct (merge_left_unmatched _ _ _ M) as (Lon & Lat & Nm).
  { now rewrite Er. }
  split; [exists row; repeat split; assumption|].
  split; [reflexivity|].
  split.
  - apply (keep_some_In _ _ row); [exact Ir|].
    unfold stop_point. rewrite Lon, Lat, Nm, Er. cbn.
    now destruct (stops_has_stop_name stops).
  - intros row' Ir'. unfold stop_point.
    destruct (float_of_value (m_stop_lon row')) as [lon|] eqn:A; [|now left].
    destruct (float_of_value (m_stop_lat row')) as [lat|] eqn:B; [|right; now left].
    right. right. eexists. split; [reflexivity|].
    apply (keep_some_In _ _ row'); [exact Ir'|].
    unfold stop_point. now rewrite A, B.
Qed.

(** ** Further properties *)



(** ** Every trip with a direction is in one direction group *)

Lemma float_eqb_key (x y : float) :
  float_eqb x y = true <-> float_isnan x = false /\ float_key x = float_key y.
Proof.
  unfold float_eqb, SFeqb.
  destruct x as [[|]|[|]| |[|] mx ex], y as [[|]|[|]| |[|] my ey]; cbn;
    try (split; [discriminate | intros [H1 H2]; discriminate]);
    try (split; [intros _; split; reflexivity | reflexivity]).
  - split.
    + destruct (Z.compare_spec ex ey) as [E|L|G]; try discriminate.
      destruct (Pos.compare_cont Eq mx my) eqn:C; try discriminate.
      apply Pos.compare_eq in C. intros _. subst. now split.
    + intros [_ H]. injection H as -> ->.
      now rewrite Z.compare_refl, Pos.compare_cont_refl.
  - split.
    + destruct (Z.compare_spec ex ey) as [E|L|G]; try discriminate.
      destruct (Pos.compare_cont Eq mx my) eqn:C; try discriminate.
      apply Pos.compare_eq in C. intros _. subst. now split.
    + intros [_ H]. injection H as -> ->.
      now rewrite Z.compare_refl, Pos.compare_cont_refl.
Qed.

(** On cells of one kind, [==] is equality of keys. *)
Lemma value_eqb_key (a b : value) :
  same_kind a b -> isna a = false ->
  value_eqb a b = true <-> value_key a = value_key b.
Proof.
  destruct a as [m|x|s], b as [n|y|t]; cbn; try contradiction; intros _ N.
  - rewrite Z.eqb_eq. split; [now intros -> | now intros [= ->]].
  - rewrite float_eqb_key. split.
    + intros [_ H]. now rewrite H.
    + intros [= H]. now split.
  - rewrite String.eqb_eq. split; [now intros -> | now intros [= ->]].
Qed.

Lemma float_eq_dec (x y : float) : {x = y} + {x <> y}.
Proof.
  decide equality; try apply Bool.bool_dec; try apply Z.eq_dec; apply Pos.eq_dec.
Qed.

Lemma value_eq_dec (a b : value) : {a = b} + {a <> b}.
Proof.
  decide equality; [apply Z.eq_dec | apply float_eq_dec | apply string_dec].
Qed.

Lemma same_value_key (col : list value) (a b : value) :
  one_kind col -> In a (dropna col) -> In b (dropna col) ->
  same_value a b = true <-> value_key a = value_key b.
Proof.
  intros K Ha Hb. apply filter_In in Ha, Hb.
  destruct Ha as [Ha Na], Hb as [Hb Nb]. apply Bool.negb_true_iff in Na, Nb.
  unfold same_value. rewrite Na. cbn. rewrite Bool.orb_false_r.
  apply value_eqb_key; [now apply K | assumption].
Qed.

Lemma seen_by_key (seen : list value) (v : value) :
  (forall w, In w seen -> same_value v w = true <-> value_key v = value_key w) ->
  existsb (same_value v) seen = true <-> In (value_key v) (map value_key seen).
Proof.
  intros H. rewrite existsb_exists, in_map_iff. split.
  - intros (w & I & E). exists w. split; [symmetry; now apply H | assumption].
  - intros (w & E & I). exists w. split; [assumption | apply H; [assumption | now symmetry]].
Qed.

(** [unique] keeps one cell per key. *)
Lemma unique_aux_keys (seen l : list value) :
  (forall a b, In a (seen ++ l) -> In b (seen ++ l) ->
               same_value a b = true <-> value_key a = value_key b) ->
  NoDup (map value_key (unique_aux seen l)) /\
  (forall d, In d (unique_aux seen l) -> ~ In (value_key d) (map value_key seen)) /\
  (forall v, In v l -> ~ In (value_key v) (map value_key seen) ->
             In (value_key v) (map value_key (unique_aux seen l))).
Proof.
  revert seen. induction l as [|x l IH]; intros seen H; cbn.
  - repeat split; [constructor | contradiction | contradiction].
  - assert (Sx : existsb (same_value x) seen = true <->
                 In (value_key x) (map value_key seen)).
    { apply seen_by_key. intros w I. apply H; apply in_or_app; [right; now left | now left]. }
    destruct (existsb (same_value x) seen) eqn:E.
    + destruct (IH seen) as (N & D & C).
      { intros a b Ia Ib. apply H.
        - apply in_app_or in Ia. apply in_or_app. destruct Ia; [now left | right; now right].
        - apply in_app_or in Ib. apply in_or_app. destruct Ib; [now left | right; now right]. }
      repeat split; try assumption.
      intros v [<-|I] M; [|now apply C].
      destruct M. now apply Sx.
    + destruct (IH (x :: seen)) as (N & D & C).
      { intros a b Ia Ib. apply H.
        - apply in_app_or in Ia. apply in_or_app.
          destruct Ia as [[<-|Ia]|Ia]; [right; now left | now left | right; now right].
        - apply in_app_or in Ib. apply in_or_app.
          destruct Ib as [[<-|Ib]|Ib]; [right; now left | now left | right; now right]. }
      assert (Nx : ~ In (value_key x) (map value_key seen)).
      { intros M. apply Sx in M. discriminate M. }
      repeat split.
      * cbn. constructor; [|assumption].
        intros M. apply in_map_iff in M. destruct M as (d & Ed & Id).
        apply (D d Id). cbn. now left.
      * intros d [<-|Id]; [assumption|].
        intros M. apply (D d Id). cbn. now right.
      * intros v [<-|I] M; [cbn; now left|].
        cbn. destruct (value_eq_dec (value_key x) (value_key v)) as [Q|Q]; [now left|].
        right. apply C; [assumption|]. cbn. intros [Q'|Q']; [contradiction | contradiction].
Qed.

Lemma NoDup_map_eq {A B : Type} (f : A -> B) (l : list A) (a b : A) :
  NoDup (map f l) -> In a l -> In b l -> f a = f b -> a = b.
Proof.
  induction l as [|x l IH]; cbn; [contradiction|].
  intros N Ia Ib E. inversion N as [|? ? X N']; subst.
  destruct Ia as [<-|Ia], Ib as [<-|Ib]; try reflexivity.
  - destruct X. rewrite E. now apply in_map.
  - destruct X. rewrite <- E. now apply in_map.
  - now apply IH.
Qed.

(** The directions of a route whose column is of one kind: every trip with
    a direction is in the group of exactly one of them. *)
Theorem trip_in_exactly_one_direction_group (route_trips : list trip_row) (t : trip_row) :
  one_kind (map t_direction_id route_trips) ->
  In t route_trips ->
  isna (t_direction_id t) = false ->
  exists d,
    In d (directions_of route_trips) /\
    In t (dir_trips_of route_trips d) /\
    forall d', In d' (directions_of route_trips) ->
               In t (dir_trips_of route_trips d') -> d' = d.
Proof.
  intros K It Nt.
  set (col := map t_direction_id route_trips) in *.
  assert (HK : forall a b, In a ([] ++ dropna col) -> In b ([] ++ dropna col) ->
                           same_value a b = true <-> value_key a = value_key b).
  { intros a b Ia Ib. now apply (same_value_key col). }
  destruct (unique_aux_keys [] (dropna col) HK) as (N & _ & C).
  assert (Iv : In (t_direction_id t) (dropna col)).
  { apply filter_In. split; [now apply in_map | now rewrite Nt]. }
  pose proof (C _ Iv (fun F => F)) as M.
  apply in_map_iff in M. destruct M as (d & Ed & Id).
  fold (unique (dropna col)) in Id, N.
  assert (Sub : forall x, In x (unique (dropna col)) -> In x (dropna col)).
  { intros x. apply unique_aux_incl. }
  assert (Q : forall x, In x (unique (dropna col)) ->
                        value_eqb (t_direction_id t) x = true <->
                        value_key (t_direction_id t) = value_key x).
  { intros x Ix. specialize (Sub x Ix).
    pose proof (same_value_key col _ x K Iv Sub) as S.
    unfold same_value in S. rewrite Nt in S. cbn in S.
    now rewrite Bool.orb_false_r in S. }
  exists d. split; [|split].
  - unfold directions_of. now apply (proj2 (stable_sort_In _ _ _)).
  - apply filter_In. split; [assumption|]. apply Q; [assumption | now symmetry].
  - intros d' Id' Gt. unfold directions_of in Id'.
    apply (proj1 (stable_sort_In _ _ _)) in Id'. fold col in Id'.
    apply filter_In in Gt. destruct Gt as [_ Gt].
    apply (NoDup_map_eq value_key (unique (dropna col))); try assumption.
    rewrite Ed. symmetry. now apply Q.
Qed.

(** ** Sorting by an integer column *)

Lemma insert_by_sorted {A : Type} (k : A -> Z) (before : A -> A -> bool) (x : A) (l : list A) :
  (forall a b, In a (x :: l) -> In b (x :: l) -> before a b = (k a <? k b)) ->
  StronglySorted (fun a b => k a <= k b) l ->
  StronglySorted (fun a b => k a <= k b) (insert_by before x l).
Proof.
  intros H S. induction S as [|y l S IH F]; cbn.
  - repeat constructor.
  - rewrite (H y x) by (cbn; tauto).
    destruct (k y <? k x) eqn:E.
    + apply Z.ltb_lt in E. constructor.
      * apply IH. intros a b Ia Ib. apply H; cbn in *; tauto.
      * rewrite Forall_forall in *. intros z Hz.
        apply (Permutation_in _ (Permutation_sym (insert_by_perm before x l))) in Hz.
        destruct Hz as [<-|Hz]; [lia | now apply F].
    + apply Z.ltb_ge in E. constructor; [now constructor|].
      constructor; [exact E|].
      rewrite Forall_forall in *. intros z Hz. specialize (F z Hz). lia.
Qed.

Lemma stable_sort_sorted {A : Type} (k : A -> Z) (before : A -> A -> bool) (l : list A) :
  (forall a b, In a l -> In b l -> before a b = (k a <? k b)) ->
  StronglySorted (fun a b => k a <= k b) (stable_sort before l).
Proof.
  induction l as [|x l IH]; intros H; cbn.
  - constructor.
  - apply insert_by_sorted.
    + intros a b Ia Ib. apply H.
      * destruct Ia as [<-|Ia]; [now left | right; now apply (proj1 (stable_sort_In _ _ _)) in Ia].
      * destruct Ib as [<-|Ib]; [now left | right; now apply (proj1 (stable_sort_In _ _ _)) in Ib].
    + apply IH. intros a b Ia Ib. apply H; now right.
Qed.

Lemma filter_all {A : Type} (p : A -> bool) (l : list A) :
  (forall x, In x l -> p x = true) -> filter p l = l.
Proof.
  induction l as [|x l IH]; cbn; intros H; [reflexivity|].
  rewrite (H x) by now left. f_equal. apply IH. intros y Hy. apply H. now right.
Qed.

Lemma filter_none {A : Type} (p : A -> bool) (l : list A) :
  (forall x, In x l -> p x = false) -> filter p l = [].
Proof.
  induction l as [|x l IH]; cbn; intros H; [reflexivity|].
  rewrite (H x) by now left. apply IH. intros y Hy. apply H. now right.
Qed.

(** [sort_values] on a column of integers: the rows, every one once, in
    ascending order of the column. *)
Lemma sort_values_int {A : Type} (key : A -> value) (rows : list A) :
  (forall r, In r rows -> is_int_cell (key r)) ->
  Permutation rows (sort_values key rows) /\
  StronglySorted (fun a b => cell_int (key a) <= cell_int (key b)) (sort_values key rows).
Proof.
  intros H. unfold sort_values.
  assert (NN : forall r, In r rows -> isna (key r) = false).
  { intros r I. destruct (H r I) as [n ->]. reflexivity. }
  rewrite (filter_all (fun r => negb (isna (key r)))), (filter_none (fun r => isna (key r)));
    try assumption.
  - rewrite app_nil_r. split; [apply stable_sort_perm|].
    apply (stable_sort_sorted (fun r => cell_int (key r))).
    intros a b Ia Ib. destruct (H a Ia) as [m ->], (H b Ib) as [n ->]. reflexivity.
  - intros r I. now rewrite (NN r I).
Qed.

Lemma astype_float_cells (col : list value) (xs : list float) :
  astype_float col = Ok xs ->
  Forall2 (fun v x => float_of_value v = Some x) col xs.
Proof.
  revert xs. induction col as [|v col IH]; cbn; intros xs H.
  - injection H as <-. constructor.
  - destruct (float_of_value v) as [x|] eqn:E; [|discriminate H].
    destruct (astype_float col) as [ys|e]; cbn in H; [|discriminate H].
    injection H as <-. constructor; [assumption | now apply IH].
Qed.

Lemma Forall2_combine_cells
    (rows : list shape_row) (lons lats : list float) :
  Forall2 (fun v x => float_of_value v = Some x) (map sh_shape_pt_lon rows) lons ->
  Forall2 (fun v x => float_of_value v = Some x) (map sh_shape_pt_lat rows) lats ->
  Forall2 (fun p c => float_of_value (sh_shape_pt_lon p) = Some (fst c) /\
                      float_of_value (sh_shape_pt_lat p) = Some (snd c))
          rows (combine lons lats).
Proof.
  revert lons lats. induction rows as [|p rows IH]; cbn; intros lons lats H1 H2.
  - inversion H1; subst. constructor.
  - inversion H1 as [|? x ? lons' E1 F1]; subst.
    inversion H2 as [|? y ? lats' E2 F2]; subst.
    cbn. constructor; [now split | now apply IH].
Qed.

(** The line of a shape whose sequence column holds integers goes through
    the point of every row of the shape, once each, in ascending order of
    the sequence number. *)
Theorem shape_line_follows_sequence (g : feed) (shape_id : ident) (coords : list coord) :
  (forall p, In p (shape_rows g shape_id) -> is_int_cell (sh_shape_pt_sequence p)) ->
  shape_points g shape_id = Ok coords ->
  exists rows,
    Permutation (shape_rows g shape_id) rows /\
    StronglySorted
      (fun p q => cell_int (sh_shape_pt_sequence p) <= cell_int (sh_shape_pt_sequence q)) rows /\
    Forall2 (fun p c => float_of_value (sh_shape_pt_lon p) = Some (fst c) /\
                        float_of_value (sh_shape_pt_lat p) = Some (snd c))
            rows coords.
Proof.
  intros H P. unfold shape_points, shape_coords in P.
  destruct (sort_values_int sh_shape_pt_sequence (shape_rows g shape_id) H) as [Pm S].
  exists (sort_values sh_shape_pt_sequence (shape_rows g shape_id)).
  split; [assumption|]. split; [assumption|].
  destruct (astype_float (map sh_shape_pt_lon _)) as [lons|e] eqn:E1; cbn in P; [|discriminate P].
  destruct (astype_float (map sh_shape_pt_lat _)) as [lats|e] eqn:E2; cbn in P; [|discriminate P].
  injection P as <-.
  apply Forall2_combine_cells; now apply astype_float_cells.
Qed.

(** ** The stop sequence of a trip *)

Lemma StronglySorted_app_intro {A : Type} (R : A -> A -> Prop) (l1 l2 : list A) :
  StronglySorted R l1 -> StronglySorted R l2 ->
  (forall x y, In x l1 -> In y l2 -> R x y) ->
  StronglySorted R (l1 ++ l2).
Proof.
  intros S1 S2 H. induction S1 as [|x l1 S1 IH F]; cbn; [assumption|].
  constructor.
  - apply IH. intros a b Ia Ib. apply H; [now right | assumption].
  - apply Forall_app. split; [assumption|].
    apply Forall_forall. intros y Iy. apply H; [now left | assumption].
Qed.

Lemma constant_key_sorted {A : Type} (k : A -> Z) (c : Z) (l : list A) :
  (forall x, In x l -> k x = c) -> StronglySorted (fun a b => k a <= k b) l.
Proof.
  induction l as [|x l IH]; intros H; constructor.
  - apply IH. intros y Iy. apply H. now right.
  - apply Forall_forall. intros y Iy.
    rewrite (H x) by now left. rewrite (H y) by now right. lia.
Qed.

Lemma flat_map_sorted {A B : Type} (kA : A -> Z) (kB : B -> Z) (f : A -> list B) (l : list A) :
  (forall a b, In a l -> In b (f a) -> kB b = kA a) ->
  StronglySorted (fun a b => kA a <= kA b) l ->
  StronglySorted (fun a b => kB a <= kB b) (flat_map f l).
Proof.
  intros H S. induction S as [|a l S IH F]; cbn; [constructor|].
  apply StronglySorted_app_intro.
  - apply (constant_key_sorted kB (kA a)). intros b Ib. apply H; [now left | assumption].
  - apply IH. intros a' b Ia Ib. apply H; [now right | assumption].
  - intros x y Ix Iy. apply in_flat_map in Iy. destruct Iy as (a' & Ia' & Iy).
    rewrite (H a x) by (try assumption; now left).
    rewrite (H a' y) by (try assumption; now right).
    rewrite Forall_forall in F. now apply F.
Qed.

Lemma drop_duplicates_aux_sorted
    (R : merged_row -> merged_row -> Prop) (seen : list ident) (rows : list merged_row) :
  StronglySorted R rows -> StronglySorted R (drop_duplicates_aux seen rows).
Proof.
  intros S. revert seen. induction S as [|x rows S IH F]; intros seen; cbn; [constructor|].
  destruct (mem_ident (m_stop_id x) seen); [apply IH|].
  constructor; [apply IH|].
  apply Forall_forall. intros y Iy. apply drop_duplicates_aux_incl in Iy.
  rewrite Forall_forall in F. now apply F.
Qed.

(** Every joined row comes from one of the stop-time rows that were joined
    and keeps its trip, stop and sequence. *)
Lemma merge_left_rows (st : list stop_time_row) (stops : stops_table) (row : merged_row) :
  In row (merge_left st stops) ->
  exists r, In r st /\ m_trip_id row = st_trip_id r /\ m_stop_id row = st_stop_id r /\
            m_stop_sequence row = st_stop_sequence r.
Proof.
  unfold merge_left. intros H. apply in_flat_map in H. destruct H as (r & Ir & H).
  exists r. split; [assumption|].
  destruct (filter _ (stops_rows stops)) as [|s found].
  - destruct H as [<-|[]]. now cbn.
  - apply in_map_iff in H. destruct H as (s' & <- & _). now cbn.
Qed.

Lemma to_numeric_rows_int (st : list stop_time_row) :
  (forall r, In r st -> is_int_cell (st_stop_sequence r)) ->
  map (fun r => {| st_trip_id := st_trip_id r;
                   st_stop_id := st_stop_id r;
                   st_stop_sequence := to_numeric (st_stop_sequence r) |}) st = st.
Proof.
  induction st as [|r st IH]; cbn; intros H; [reflexivity|].
  rewrite IH by (intros x Ix; apply H; now right).
  destruct (H r (or_introl eq_refl)) as [n E]. destruct r as [t s q]. cbn in *.
  now rewrite E.
Qed.

Lemma drop_duplicates_aux_NoDup (seen : list ident) (rows : list merged_row) :
  NoDup (map m_stop_id (drop_duplicates_aux seen rows)).
Proof.
  revert seen. induction rows as [|x rows IH]; intros seen; cbn; [constructor|].
  destruct (mem_ident (m_stop_id x) seen); [apply IH|].
  cbn. constructor; [|apply IH].
  intros H. apply in_map_iff in H. destruct H as (y & E & Iy).
  apply drop_duplicates_aux_incl in Iy. destruct Iy as [_ Iy].
  apply Iy. rewrite E. now left.
Qed.

(** The deduplicated frame has every stop of the frame, each once, on rows
    of the frame; so there is at most one point per stop. *)
Theorem drop_duplicates_one_row_per_stop (stop_icon_color : color) (rows : list merged_row) :
  NoDup (map m_stop_id (drop_duplicates rows)) /\
  (forall k, In k (map m_stop_id (drop_duplicates rows)) <-> In k (map m_stop_id rows)) /\
  (forall row, In row (drop_duplicates rows) -> In row rows) /\
  (List.length (stop_points stop_icon_color (drop_duplicates rows))
   <= List.length (drop_duplicates rows) <= List.length rows)%nat.
Proof.
  unfold drop_duplicates. split; [apply drop_duplicates_aux_NoDup|].
  assert (Sub : forall row, In row (drop_duplicates_aux [] rows) -> In row rows).
  { intros row H. now apply drop_duplicates_aux_incl in H. }
  split; [|split; [exact Sub|]].
  - intros k. split; intros H.
    + apply in_map_iff in H. destruct H as (row & <- & I). apply in_map. now apply Sub.
    + apply drop_duplicates_aux_keeps; [assumption | tauto].
  - split.
    + unfold stop_points. generalize (drop_duplicates_aux [] rows). intros l.
      induction l as [|x l IH]; cbn; [lia|].
      destruct (stop_point stop_icon_color x); cbn; lia.
    + generalize (@nil ident). induction rows as [|x l IH]; intros seen; cbn; [lia|].
      destruct (mem_ident (m_stop_id x) seen); cbn.
      * specialize (IH (fun row H => proj1 (drop_duplicates_aux_incl [] l row H)) seen). lia.
      * specialize (IH (fun row H => proj1 (drop_duplicates_aux_incl [] l row H))
                       (m_stop_id x :: seen)). lia.
Qed.

(** The stop sequence of a trip when [stop_sequence] is a column of
    integers: every stop of the trip, each once, on rows in ascending order of
    the sequence number, and no row of another trip. *)
Theorem stops_follow_sequence
    (stop_times : list stop_time_row) (stops : stops_table) (trip_id : ident) :
  (forall r, In r stop_times -> is_int_cell (st_stop_sequence r)) ->
  StronglySorted
    (fun a b => cell_int (m_stop_sequence a) <= cell_int (m_stop_sequence b))
    (drop_duplicates (get_ordered_stops_for_trip stop_times stops trip_id)) /\
  (forall row,
     In row (drop_duplicates (get_ordered_stops_for_trip stop_times stops trip_id)) ->
     exists r, In r stop_times /\ st_trip_id r = trip_id /\
               st_stop_id r = m_stop_id row /\ st_stop_sequence r = m_stop_sequence row) /\
  (forall r, In r stop_times -> st_trip_id r = trip_id ->
     In (st_stop_id r)
        (map m_stop_id
             (drop_duplicates (get_ordered_stops_for_trip stop_times stops trip_id)))).
Proof.
  intros Hcol.
  assert (H : forall r, In r stop_times -> st_trip_id r = trip_id ->
                        is_int_cell (st_stop_sequence r)) by (intros r I _; now apply Hcol).
  set (st := filter (fun r => ident_eqb (st_trip_id r) trip_id) stop_times).
  assert (Hst : forall r, In r st <-> In r stop_times /\ st_trip_id r = trip_id).
  { intros r. unfold st. rewrite filter_In, ident_eqb_eq. tauto. }
  assert (Hint : forall r, In r st -> is_int_cell (st_stop_sequence r)).
  { intros r I. apply Hst in I. now apply H. }
  assert (Sq : sequenced_stop_times stop_times trip_id = sort_values st_stop_sequence st).
  { unfold sequenced_stop_times. fold st. rewrite (to_numeric_rows_int st Hint).
    f_equal. apply filter_all. intros r I. destruct (Hint r I) as [n ->]. reflexivity. }
  destruct (sort_values_int st_stop_sequence st Hint) as [Pm So].
  assert (G : get_ordered_stops_for_trip stop_times stops trip_id
              = merge_left (sort_values st_stop_sequence st) stops).
  { unfold get_ordered_stops_for_trip. fold st. rewrite Sq.
    destruct st as [|x l] eqn:E; [reflexivity | reflexivity]. }
  rewrite G. split; [|split].
  - apply drop_duplicates_aux_sorted.
    apply (flat_map_sorted (fun r => cell_int (st_stop_sequence r))
                           (fun row => cell_int (m_stop_sequence row))); [|assumption].
    intros r row Ir Irow.
    assert (M : In row (merge_left [r] stops)).
    { unfold merge_left. cbn. now rewrite app_nil_r. }
    apply merge_left_rows in M. destruct M as (r' & [<-|[]] & _ & _ & E). now rewrite E.
  - intros row Irow. apply drop_duplicates_aux_incl in Irow. destruct Irow as [Irow _].
    apply merge_left_rows in Irow. destruct Irow as (r & Ir & _ & E2 & E3).
    apply (Permutation_in _ (Permutation_sym Pm)) in Ir. apply Hst in Ir.
    exists r. repeat split; try tauto; now symmetry.
  - intros r Ir Tr.
    apply drop_duplicates_aux_keeps; [|tauto].
    apply merge_left_stop_ids. apply (Permutation_in _ Pm). apply Hst. now split.
Qed.

(** ** The document of the routes *)

















(** ** Outcomes of the generator and of the endpoint *)



(** The endpoint answers 400 exactly when no token is given in the header
    or the environment, or no URL, or a format other than "kmz" and "kml";
    an empty header token counts as none, and a header token that is not
    empty makes the token of the environment irrelevant. *)
Theorem create_kmz_rejects
    (request : KmzRequest) (output_format : string)
    (github_token env_github_token : option string)
    (g : feed) (metro : option (list placemark)) (now : Z * Z * Z * Z * Z * Z) :
  ((exists status_code detail,
      create_kmz request output_format github_token env_github_token g metro now
      = HTTPException status_code detail)
   <->
   (truthy_opt github_token = false /\ truthy_opt env_github_token = false) \/
   truthy_opt (kr_gtfs_url request) = false \/
   (output_format <> "kmz" /\ output_format <> "kml")) /\
  (forall status_code detail,
     create_kmz request output_format github_token env_github_token g metro now
     = HTTPException status_code detail -> status_code = 400) /\
  (truthy_opt github_token = false ->
   create_kmz request output_format github_token env_github_token g metro now
   = create_kmz request output_format None env_github_token g metro now) /\
  (truthy_opt github_token = true ->
   forall other,
     create_kmz request output_format github_token env_github_token g metro now
     = create_kmz request output_format github_token other g metro now).
Proof.
  unfold create_kmz, py_or.
  split; [|split; [|split]].
  - destruct (truthy_opt github_token) eqn:H; cbn [negb].
    + rewrite H. cbn [negb].
      destruct (truthy_opt (kr_gtfs_url request)) eqn:U; cbn [negb].
      * destruct (String.eqb_spec output_format "kmz") as [F1|F1];
          destruct (String.eqb_spec output_format "kml") as [F2|F2]; cbn [orb negb].
        all: try (split; [intros (c & d & E) | intros [[? ?]|[?|[? ?]]]; try discriminate; try contradiction];
                  destruct (generate_kmz_file _ _ _ _ _ _); try discriminate E;
                  destruct (String.eqb output_format "kml"); discriminate E).
        split; [intros _; right; right; now split | intros _; now eexists _, _].
      * split; [intros _; right; now left | intros _; now eexists _, _].
    + destruct (truthy_opt env_github_token) eqn:V; cbn [negb].
      * destruct (truthy_opt (kr_gtfs_url request)) eqn:U; cbn [negb].
        -- destruct (String.eqb_spec output_format "kmz") as [F1|F1];
             destruct (String.eqb_spec output_format "kml") as [F2|F2]; cbn [orb negb].
           all: try (split; [intros (c & d & E) | intros [[? ?]|[?|[? ?]]]; try discriminate; try contradiction];
                     destruct (generate_kmz_file _ _ _ _ _ _); try discriminate E;
                     destruct (String.eqb output_format "kml"); discriminate E).
           split; [intros _; right; right; now split | intros _; now eexists _, _].
        -- split; [intros _; right; now left | intros _; now eexists _, _].
      * split; [intros _; left; now split | intros _; now eexists _, _].
  - intros c d.
    destruct (negb (truthy_opt _)); [now intros [= <- _]|].
    destruct (negb (truthy_opt _)); [now intros [= <- _]|].
    destruct (negb _); [now intros [= <- _]|].
    destruct (generate_kmz_file _ _ _ _ _ _); [|discriminate].
    destruct (String.eqb output_format "kml"); discriminate.
  - intros H. rewrite H. reflexivity.
  - intros H other. rewrite H. reflexivity.
Qed.



(** The endpoint's answer for "kmz" is its answer for "kml" with the body
    wrapped as the one member [doc.kml] of an archive and the media type and
    file name of the packaged form; a rejection or an exception is the same
    for both formats. *)
Theorem create_kmz_kmz_of_kml
    (request : KmzRequest) (github_token env_github_token : option string)
    (g : feed) (metro : option (list placemark)) (now : Z * Z * Z * Z * Z * Z) :
  create_kmz request "kmz" github_token env_github_token g metro now =
  match create_kmz request "kml" github_token env_github_token g metro now with
  | Responded r =>
      Responded {| content := zip_bytes [ {| zm_filename := "doc.kml";
                                             zm_date_time := now;
                                             zm_compress_type := ZIP_DEFLATED;
                                             zm_data := content r |} ];
                   media_type := "application/vnd.google-earth.kmz";
                   content_disposition := "attachment; filename=Islamabad_Transit.kmz" |}
  | other => other
  end /\
  (forall r,
     create_kmz request "kml" github_token env_github_token g metro now = Responded r ->
     media_type r = "application/vnd.google-earth.kml+xml" /\
     content_disposition r = "attachment; filename=Islamabad_Transit.kml").
Proof.
  unfold create_kmz.
  destruct (negb (truthy_opt (py_or github_token env_github_token))); [split; [reflexivity | discriminate]|].
  destruct (negb (truthy_opt (kr_gtfs_url request))); [split; [reflexivity | discriminate]|].
  cbn [String.eqb Ascii.eqb Bool.eqb orb negb].
  unfold generate_kmz_file.
  destruct (negb (truthy (str_of_opt (kr_gtfs_url request)))); [split; [reflexivity | discriminate]|].
  destruct (negb (truthy (str_of_opt (py_or github_token env_github_token))));
    [split; [reflexivity | discriminate]|].
  destruct (build_routes g) as [d|e]; cbn [bind]; [|split; [reflexivity | discriminate]].
  destruct metro as [placemarks|]; [|split; [reflexivity | discriminate]].
  split; [reflexivity|].
  intros r [= <-]. now split.
Qed.

(** ** Tokens of the overlay's coordinates text *)

Lemma split_char_aux_field (sep : ascii) (p : string) :
  no_char sep p = true ->
  forall cur,
    split_char_aux sep cur p = [string_of_list_ascii (rev cur ++ list_ascii_of_string p)] /\
    forall r,
      split_char_aux sep cur (p ++ String sep r) =
      string_of_list_ascii (rev cur ++ list_ascii_of_string p) :: split_char_aux sep [] r.
Proof.
  induction p as [|c p IH]; cbn [no_char split_char_aux append list_ascii_of_string]; intros N cur.
  - rewrite app_nil_r, Ascii.eqb_refl. now split.
  - apply andb_true_iff in N as [C N]. apply negb_true_iff in C. rewrite C.
    destruct (IH N (c :: cur)) as [A B]. cbn [rev] in A, B.
    rewrite <- app_assoc in A, B. cbn [app] in A, B.
    now split.
Qed.

Lemma split_char_field (sep : ascii) (p : string) :
  no_char sep p = true ->
  split_char sep p = [p] /\
  forall r, split_char sep (p ++ String sep r) = p :: split_char sep r.
Proof.
  intros N. destruct (split_char_aux_field sep p N []) as [A B].
  cbn [rev app] in A, B. rewrite string_of_list_ascii_of_string in A, B.
  unfold split_char. now split.
Qed.

(** A token of the coordinates text is read by its first two comma-separated
    fields: a token without a comma gives no coordinate, a token
    [lon,lat] gives the pair when both fields convert and nothing when one
    does not, and whatever follows a second comma (the altitude) does not
    change the result. *)
Theorem parse_part_reads_two_fields (p0 p1 : string) :
  no_char "," p0 = true -> no_char "," p1 = true ->
  parse_part p0 = None /\
  parse_part (p0 ++ "," ++ p1) =
    match float_of_string p0, float_of_string p1 with
    | Some lon, Some lat => Some (lon, lat)
    | _, _ => None
    end /\
  forall rest, parse_part (p0 ++ "," ++ p1 ++ "," ++ rest) = parse_part (p0 ++ "," ++ p1).
Proof.
  intros N0 N1. unfold parse_part.
  destruct (split_char_field "," p0 N0) as [A0 B0].
  destruct (split_char_field "," p1 N1) as [A1 B1].
  cbn [append]. rewrite A0. split; [reflexivity|].
  rewrite (B0 p1), A1. split; [reflexivity|].
  intros rest. now rewrite (B0 (p1 ++ String "," rest)), (B1 rest).
Qed.

End Generator.


(** ** Examples: the properties on the sample inputs *)

Import Samples.

(** The direction groups of a table without the column, and of a table
    whose first trip has a NaN direction. *)
Lemma direction_groups_of_missing_indicator_witness :
  (directions_of
     (route_trips_of
        (trip_route_map {| trips_has_direction_id := false;
                           trips_rows := [trip T1 (VInt 7)] |}) R1) = [VInt 0] /\
   In (trip T1 (VInt 0))
      (dir_trips_of
         (route_trips_of
            (trip_route_map {| trips_has_direction_id := false;
                               trips_rows := [trip T1 (VInt 7)] |}) R1) (VInt 0)) /\
   dir_label_of (dir_int_of (VInt 0)) = "FWD") /\
  (~ In NaN
      (directions_of
         (route_trips_of
            (trip_route_map {| trips_has_direction_id := true;
                               trips_rows := [trip T1 NaN; trip T2 (VInt 0)] |}) R1)) /\
   forall d,
     ~ In (trip T1 NaN)
        (dir_trips_of
           (route_trips_of
              (trip_route_map {| trips_has_direction_id := true;
                                 trips_rows := [trip T1 NaN; trip T2 (VInt 0)] |}) R1) d)).
Proof.
  split.
  - apply (direction_groups_of_missing_indicator
             {| trips_has_direction_id := false; trips_rows := [trip T1 (VInt 7)] |}
             R1 (trip T1 (VInt 0))).
    + cbn. now left.
    + reflexivity.
  - apply (direction_groups_of_missing_indicator
             {| trips_has_direction_id := true;
                trips_rows := [trip T1 NaN; trip T2 (VInt 0)] |}
             R1 (trip T1 NaN)).
    + cbn. now left.
    + reflexivity.
Defined.

(** C1, as stated, fails: with a [direction_id] column, a trip whose cell
    is NaN is in the forward group of no direction, no direction is
    processed for its route, and the route folders stay empty. *)
Lemma nan_direction_trip_excluded :
  In (trip T1 NaN) (route_trips_of (trip_route_map (trips (with_trips true [trip T1 NaN] []))) R1) /\
  isna (t_direction_id (trip T1 NaN)) = true /\
  directions_of
    (route_trips_of (trip_route_map (trips (with_trips true [trip T1 NaN] []))) R1) = [] /\
  dir_trips_of
    (route_trips_of (trip_route_map (trips (with_trips true [trip T1 NaN] []))) R1)
    (VInt 0) = [] /\
  build_routes float_of_string numeric_of_string float_repr (with_trips true [trip T1 NaN] [])
  = Ok {| fwd_group_folder := [Folder "1" []];
          bwd_group_folder := [Folder "1" []];
          stops_group_folder :=
            [Folder "1" [Folder "Stops - FWD" []; Folder "Stops - BWD" []]] |}.
Proof.
  split; [cbn; now left|].
  repeat split.
Qed.

Lemma representative_trip_has_most_rows_witness :
  exists rep,
    pick_representative_trip_id stop_times_3_and_5 [T1; T2] = Some rep /\
    mem_ident rep [T1; T2] = true /\
    (0 < stop_time_count stop_times_3_and_5 rep)%nat /\
    (forall t, mem_ident t [T1; T2] = true ->
       (stop_time_count stop_times_3_and_5 t <= stop_time_count stop_times_3_and_5 rep)%nat) /\
    (forall stop_times', Permutation stop_times_3_and_5 stop_times' ->
       pick_representative_trip_id stop_times' [T1; T2] = Some rep).
Proof.
  apply (representative_trip_has_most_rows stop_times_3_and_5 [T1; T2]).
  exists (stop_time T1 "A" (VInt 1)). split.
  - cbn. now left.
  - reflexivity.
Defined.

(** The trip with 5 rows is chosen over the trip with 3. *)
Example representative_of_3_and_5 :
  pick_representative_trip_id stop_times_3_and_5 [T1; T2] = Some T2 /\
  pick_representative_trip_id (rev stop_times_3_and_5) [T2; T1] = Some T2.
Proof. split; reflexivity. Qed.

(** C2, as stated, fails on a tie: trips [A] and [B] have one row each and
    [A] is chosen, whether the row of [B] or the row of [A] is first in the
    table, and whatever the order of the group. *)
Lemma tie_not_broken_by_row_order :
  map st_trip_id stop_times_tie = [IdStr "B"; IdStr "A"] /\
  stop_time_count stop_times_tie (IdStr "A") = 1%nat /\
  stop_time_count stop_times_tie (IdStr "B") = 1%nat /\
  pick_representative_trip_id stop_times_tie [IdStr "A"; IdStr "B"] = Some (IdStr "A") /\
  pick_representative_trip_id stop_times_tie [IdStr "B"; IdStr "A"] = Some (IdStr "A") /\
  pick_representative_trip_id (rev stop_times_tie) [IdStr "B"; IdStr "A"] = Some (IdStr "A").
Proof. repeat split. Qed.

(** The segment read from a placemark named by spaces has the empty name. *)
Example blank_placemark_read :
  read_placemark float_of_string blank_placemark
  = Some ("", [(float_of_Z 73, float_of_Z 33); (float_of_Z 74, float_of_Z 34)]).
Proof. reflexivity. Qed.

(** A segment named "Red Line" with 4 coordinates: both copies red, the
    backward one reversed. *)
Example red_line_overlay :
  add_metro_lines empty_doc
    [("Red Line", [(float_of_Z 1, float_of_Z 5); (float_of_Z 2, float_of_Z 6);
                   (float_of_Z 3, float_of_Z 7); (float_of_Z 4, float_of_Z 8)])]
  = {| fwd_group_folder :=
         [Folder "Red Line"
            [LineString "Red Line"
               [(float_of_Z 1, float_of_Z 5); (float_of_Z 2, float_of_Z 6);
                (float_of_Z 3, float_of_Z 7); (float_of_Z 4, float_of_Z 8)]
               5 Color_red]];
       bwd_group_folder :=
         [Folder "Red Line"
            [LineString "Red Line"
               [(float_of_Z 4, float_of_Z 8); (float_of_Z 3, float_of_Z 7);
                (float_of_Z 2, float_of_Z 6); (float_of_Z 1, float_of_Z 5)]
               5 Color_red]];
       stops_group_folder := [] |}.
Proof. reflexivity. Qed.

Lemma packaged_output_wraps_markup_witness :
  generate_kmz_file float_of_string numeric_of_string float_repr kml_text encode_utf8
    zip_bytes "https://feed" "token" "kmz" one_route (Some [blank_placemark]) now =
  let* kml_bytes :=
    generate_kmz_file float_of_string numeric_of_string float_repr kml_text encode_utf8
      zip_bytes "https://feed" "token" "kml" one_route (Some [blank_placemark]) now in
  Ok (zip_bytes [ {| zm_filename := "doc.kml";
                     zm_date_time := now;
                     zm_compress_type := ZIP_DEFLATED;
                     zm_data := kml_bytes |} ]).
Proof.
  apply (packaged_output_wraps_markup float_of_string numeric_of_string float_repr
           kml_text encode_utf8 zip_bytes).
  discriminate.
Defined.

(** C6, as stated, fails: neither text is six hexadecimal digits after one
    optional [#], and the resolver still returns a colour that is not the
    fallback. *)
Lemma color_resolver_accepts_non_hex :
  six_hex_digits "##FF0000" = false /\
  gtfs_color_to_kml (Some (VStr "##FF0000")) Color_blue = Color_rgb 255 0 0 /\
  six_hex_digits "+1+2+3" = false /\
  gtfs_color_to_kml (Some (VStr "+1+2+3")) Color_blue = Color_rgb 1 2 3 /\
  Color_rgb 255 0 0 <> Color_blue /\ Color_rgb 1 2 3 <> Color_blue.
Proof. repeat split; discriminate. Qed.

Example color_of_hex_text :
  six_hex_digits " #00ff7F " = true /\
  gtfs_color_to_kml (Some (VStr " #00ff7F ")) Color_blue = Color_rgb 0 255 127 /\
  gtfs_color_to_kml (Some (VStr "12345")) Color_blue = Color_blue /\
  gtfs_color_to_kml (Some (VStr "GG0000")) Color_blue = Color_blue /\
  gtfs_color_to_kml (Some (VInt 123456)) Color_blue = Color_blue /\
  gtfs_color_to_kml None Color_blue = Color_blue.
Proof. repeat split. Qed.

(** The sample shape gives three points, so the forward line is added. *)
Lemma line_needs_two_points_witness :
  exists rf',
    process_direction float_of_string numeric_of_string float_repr one_route "1"
      Color_red Color_red [trip T1 (VInt 0)] (VInt 0) empty_route_folders = Ok rf' /\
    path_folder 0 rf' = [LineString "1 FWD" coords_S1 4 Color_red] /\
    other_path_folder 0 rf' = [].
Proof.
  destruct (line_needs_two_points float_of_string numeric_of_string float_repr
              one_route "1" Color_red Color_red [trip T1 (VInt 0)] (VInt 0)
              empty_route_folders (trip T1 (VInt 0)) [] S1 coords_S1
              eq_refl eq_refl eq_refl) as [_ H].
  apply H. cbn. lia.
Defined.

(** A shape with one row gives one point and no line; a shape with two rows
    gives a line. *)
Example one_point_no_line_two_points_line :
  process_direction float_of_string numeric_of_string float_repr
    {| routes := [route_1]; trips := trips one_route;
       shapes := [shape_point 1 73 33]; stops := stops_ABC;
       stop_times := stop_times one_route |}
    "1" Color_red Color_red [trip T1 (VInt 0)] (VInt 0) empty_route_folders
  = Ok empty_route_folders /\
  process_direction float_of_string numeric_of_string float_repr
    {| routes := [route_1]; trips := trips one_route;
       shapes := [shape_point 1 73 33; shape_point 2 74 34]; stops := stops_ABC;
       stop_times := [] |}
    "1" Color_red Color_red [trip T1 (VInt 0)] (VInt 0) empty_route_folders
  = Ok {| route_fwd_folder :=
            [LineString "1 FWD" [(float_of_Z 73, float_of_Z 33);
                                 (float_of_Z 74, float_of_Z 34)] 4 Color_red];
          route_bwd_folder := [];
          route_stops_fwd_folder := [];
          route_stops_bwd_folder := [] |}.
Proof. split; reflexivity. Qed.

(** Stop [A] is visited at sequence 2 and again at 3: it is kept once,
    after stop [B], with the row of sequence 2. *)
Lemma stop_kept_at_first_occurrence_witness :
  exists tail,
    drop_duplicates (get_ordered_stops_for_trip numeric_of_string stop_times_A_twice stops_ABC T1)
    = (drop_duplicates [joined "B" 1 (VStr "Blue Area") (VInt 74) (VInt 34)]
       ++ joined "A" 2 (VStr "Aabpara") (VInt 73) (VInt 33) :: tail)%list /\
    ~ In (IdStr "A")
         (map m_stop_id (drop_duplicates [joined "B" 1 (VStr "Blue Area") (VInt 74) (VInt 34)])) /\
    ~ In (IdStr "A") (map m_stop_id tail) /\
    filter (fun x => ident_eqb (m_stop_id x) (IdStr "A"))
           (drop_duplicates
              (get_ordered_stops_for_trip numeric_of_string stop_times_A_twice stops_ABC T1))
    = [joined "A" 2 (VStr "Aabpara") (VInt 73) (VInt 33)].
Proof.
  apply (stop_kept_at_first_occurrence numeric_of_string stop_times_A_twice stops_ABC T1
           [joined "B" 1 (VStr "Blue Area") (VInt 74) (VInt 34)]
           [joined "A" 3 (VStr "Aabpara") (VInt 73) (VInt 33)]
           (joined "A" 2 (VStr "Aabpara") (VInt 73) (VInt 33))).
  - reflexivity.
  - cbn. intros [H|[]]. discriminate H.
Defined.

Example stops_of_A_twice :
  map m_stop_id
      (drop_duplicates (get_ordered_stops_for_trip numeric_of_string stop_times_A_twice stops_ABC T1))
  = [IdStr "B"; IdStr "A"].
Proof. reflexivity. Qed.

(** The sample route without any stop-time: the line, and no stop. *)
Lemma line_emitted_without_stop_times_witness :
  exists rf',
    process_direction float_of_string numeric_of_string float_repr
      (with_trips true [trip T1 (VInt 0)] []) "1" Color_red Color_red
      [trip T1 (VInt 0)] (VInt 0) empty_route_folders = Ok rf' /\
    path_folder 0 rf' = [LineString "1 FWD" coords_S1 4 Color_red] /\
    other_path_folder 0 rf' = [] /\
    route_stops_fwd_folder rf' = [] /\
    route_stops_bwd_folder rf' = [].
Proof.
  apply (line_emitted_without_stop_times float_of_string numeric_of_string float_repr
           (with_trips true [trip T1 (VInt 0)] []) "1" Color_red Color_red
           [trip T1 (VInt 0)] (VInt 0) empty_route_folders (trip T1 (VInt 0)) [] S1 coords_S1).
  - reflexivity.
  - reflexivity.
  - reflexivity.
  - cbn. lia.
  - intros r [].
Defined.

(** Stop [Z] is not in the stops table: its point is named "nan" and has
    NaN coordinates. *)
Lemma unmatched_stop_point_has_nan_coordinates_witness :
  (exists row,
     In row (drop_duplicates
               (get_ordered_stops_for_trip numeric_of_string
                  [stop_time T1 "Z" (VInt 1)] stops_ABC T1)) /\
     m_stop_id row = IdStr "Z" /\ m_stop_lon row = NaN /\ m_stop_lat row = NaN) /\
  float_of_value float_of_string NaN = Some nan /\
  In (Point "nan" [(nan, nan)] scale_0_8 Color_red)
     (stop_points float_of_string float_repr Color_red
        (drop_duplicates
           (get_ordered_stops_for_trip numeric_of_string
              [stop_time T1 "Z" (VInt 1)] stops_ABC T1))) /\
  (forall row,
     In row (drop_duplicates
               (get_ordered_stops_for_trip numeric_of_string
                  [stop_time T1 "Z" (VInt 1)] stops_ABC T1)) ->
     float_of_value float_of_string (m_stop_lon row) = None \/
     float_of_value float_of_string (m_stop_lat row) = None \/
     exists p, stop_point float_of_string float_repr Color_red row = Some p /\
               In p (stop_points float_of_string float_repr Color_red
                       (drop_duplicates
                          (get_ordered_stops_for_trip numeric_of_string
                             [stop_time T1 "Z" (VInt 1)] stops_ABC T1)))).
Proof.
  apply (unmatched_stop_point_has_nan_coordinates float_of_string numeric_of_string
           float_repr [stop_time T1 "Z" (VInt 1)] stops_ABC T1 Color_red
           (stop_time T1 "Z" (VInt 1))).
  - now left.
  - reflexivity.
  - reflexivity.
  - intros s [<-|[<-|[<-|[]]]]; reflexivity.
Defined.

(** C10, as stated, fails: the only stop-time row of the trip names stop
    [Z], which the stops table lacks, but its sequence cell is empty; the
    row is dropped before the join and the direction gets its line and no
    point. *)
Lemma unmatched_stop_without_sequence_dropped :
  In (stop_time T1 "Z" NaN) (stop_times (with_trips true [trip T1 (VInt 0)] [stop_time T1 "Z" NaN])) /\
  filter (fun s => ident_eqb (s_stop_id s) (IdStr "Z")) (stops_rows stops_ABC) = [] /\
  pick_representative_trip_id [stop_time T1 "Z" NaN] [T1] = Some T1 /\
  get_ordered_stops_for_trip numeric_of_string [stop_time T1 "Z" NaN] stops_ABC T1 = [] /\
  build_routes float_of_string numeric_of_string float_repr
    (with_trips true [trip T1 (VInt 0)] [stop_time T1 "Z" NaN])
  = Ok {| fwd_group_folder := [Folder "1" [LineString "1 FWD" coords_S1 4 Color_red]];
          bwd_group_folder := [Folder "1" []];
          stops_group_folder :=
            [Folder "1" [Folder "Stops - FWD" []; Folder "Stops - BWD" []]] |}.
Proof.
  split; [now left|]. repeat split.
Qed.

(** The whole route loop on the sample feed: one red forward line through
    the three shape points in sequence order, three stop points in sequence
    order, nothing under the backward path. *)
Example one_route_document :
  build_routes float_of_string numeric_of_string float_repr one_route
  = Ok {| fwd_group_folder := [Folder "1" [LineString "1 FWD" coords_S1 4 Color_red]];
          bwd_group_folder := [Folder "1" []];
          stops_group_folder :=
            [Folder "1"
               [Folder "Stops - FWD"
                  [Point "Aabpara" [(float_of_Z 73, float_of_Z 33)] scale_0_8 Color_red;
                   Point "Blue Area" [(float_of_Z 74, float_of_Z 34)] scale_0_8 Color_red;
                   Point "Centaurus" [(float_of_Z 75, float_of_Z 35)] scale_0_8 Color_red];
                Folder "Stops - BWD" []]] |}.
Proof. reflexivity. Qed.


(** A blank short name gives way to the long name, and both missing to the
    route id. *)
Example route_names :
  get_route_name {| r_route_id := IdInt 7; r_route_short_name := Some (VStr "  ");
                    r_route_long_name := Some (VStr " Faizabad Express ");
                    r_route_color := None; r_route_text_color := None |}
  = "Faizabad Express" /\
  get_route_name {| r_route_id := IdInt 7; r_route_short_name := Some NaN;
                    r_route_long_name := None;
                    r_route_color := None; r_route_text_color := None |}
  = "7".
Proof. split; reflexivity. Qed.

Lemma shape_points_length_witness :
  List.length coords_S1 = List.length (shape_rows one_route S1).
Proof.
  apply (shape_points_length float_of_string one_route S1 coords_S1).
  reflexivity.
Defined.

(** Tokens are split on any whitespace; one that does not give two numbers
    is dropped. *)
Example coordinates_tokens :
  parse_coordinates float_of_string (String "010" "73,33,0" ++ String "010" "  x,1 74,34 75")
  = [(float_of_Z 73, float_of_Z 33); (float_of_Z 74, float_of_Z 34)].
Proof. reflexivity. Qed.

(** A route with a forward and a backward trip: the backward trip is in the
    group of direction 1 and in no other. *)
Lemma trip_in_exactly_one_direction_group_witness :
  exists d,
    In d (directions_of [trip T1 (VInt 0); trip T2 (VInt 1)]) /\
    In (trip T2 (VInt 1)) (dir_trips_of [trip T1 (VInt 0); trip T2 (VInt 1)] d) /\
    forall d', In d' (directions_of [trip T1 (VInt 0); trip T2 (VInt 1)]) ->
               In (trip T2 (VInt 1)) (dir_trips_of [trip T1 (VInt 0); trip T2 (VInt 1)] d') ->
               d' = d.
Proof.
  apply (trip_in_exactly_one_direction_group
           [trip T1 (VInt 0); trip T2 (VInt 1)] (trip T2 (VInt 1))).
  - intros a b [<-|[<-|[]]] [<-|[<-|[]]] _ _; exact I.
  - cbn. right. now left.
  - reflexivity.
Defined.

(** The sample shape, listed out of order, is drawn in sequence order. *)
Lemma shape_line_follows_sequence_witness :
  exists rows,
    Permutation (shape_rows one_route S1) rows /\
    StronglySorted
      (fun p q => cell_int (sh_shape_pt_sequence p) <= cell_int (sh_shape_pt_sequence q)) rows /\
    Forall2 (fun p c => float_of_value float_of_string (sh_shape_pt_lon p) = Some (fst c) /\
                        float_of_value float_of_string (sh_shape_pt_lat p) = Some (snd c))
            rows coords_S1.
Proof.
  apply (shape_line_follows_sequence float_of_string one_route S1 coords_S1).
  - intros p [<-|[<-|[<-|[]]]]; eexists; reflexivity.
  - reflexivity.
Defined.

(** Stop-times that visit stop [A] twice, listed out of order: the stops of
    the trip in sequence order, each once. *)
Lemma stops_follow_sequence_witness :
  StronglySorted
    (fun a b => cell_int (m_stop_sequence a) <= cell_int (m_stop_sequence b))
    (drop_duplicates
       (get_ordered_stops_for_trip numeric_of_string stop_times_A_twice stops_ABC T1)) /\
  (forall row,
     In row (drop_duplicates
               (get_ordered_stops_for_trip numeric_of_string stop_times_A_twice stops_ABC T1)) ->
     exists r, In r stop_times_A_twice /\ st_trip_id r = T1 /\
               st_stop_id r = m_stop_id row /\ st_stop_sequence r = m_stop_sequence row) /\
  (forall r, In r stop_times_A_twice -> st_trip_id r = T1 ->
     In (st_stop_id r)
        (map m_stop_id
             (drop_duplicates
                (get_ordered_stops_for_trip numeric_of_string stop_times_A_twice stops_ABC T1)))).
Proof.
  apply (stops_follow_sequence numeric_of_string stop_times_A_twice stops_ABC T1).
  intros r [<-|[<-|[<-|[]]]]; eexists; reflexivity.
Defined.





Example build_routes_text_longitude :
  build_routes float_of_string numeric_of_string float_repr text_longitude
  = Raised (ValueError "could not convert string to float").
Proof. reflexivity. Qed.


(** The outcomes of the endpoint on the sample feed. *)
Example create_kmz_outcomes :
  create_kmz float_of_string numeric_of_string float_repr kml_text encode_utf8 zip_bytes
    {| kr_gtfs_url := Some "https://feed" |} "kmz" None (Some "") one_route None now
  = HTTPException 400 "GITHUB_TOKEN not provided in header or .env file" /\
  create_kmz float_of_string numeric_of_string float_repr kml_text encode_utf8 zip_bytes
    {| kr_gtfs_url := None |} "kmz" (Some "token") None one_route None now
  = HTTPException 400 "GTFS_URL not provided in request body or .env file" /\
  create_kmz float_of_string numeric_of_string float_repr kml_text encode_utf8 zip_bytes
    {| kr_gtfs_url := Some "https://feed" |} "KMZ" (Some "token") None one_route None now
  = HTTPException 400 "Invalid output_format. Must be 'kmz' or 'kml'" /\
  create_kmz float_of_string numeric_of_string float_repr kml_text encode_utf8 zip_bytes
    {| kr_gtfs_url := Some "https://feed" |} "kml" (Some "token") None one_route None now
  = Uncaught (RuntimeError "No .kml file found inside Metro KMZ") /\
  exists data,
    create_kmz float_of_string numeric_of_string float_repr kml_text encode_utf8 zip_bytes
      {| kr_gtfs_url := Some "https://feed" |} "kml" None (Some "token") one_route
      (Some [blank_placemark]) now
    = Responded {| content := data;
                   media_type := "application/vnd.google-earth.kml+xml";
                   content_disposition := "attachment; filename=Islamabad_Transit.kml" |}.
Proof. repeat split. eexists. reflexivity. Qed.

(** A token with an altitude, and one without a comma. *)
Lemma parse_part_reads_two_fields_witness :
  parse_part float_of_string "73" = None /\
  parse_part float_of_string ("73" ++ "," ++ "33") =
    match float_of_string "73", float_of_string "33" with
    | Some lon, Some lat => Some (lon, lat)
    | _, _ => None
    end /\
  forall rest,
    parse_part float_of_string ("73" ++ "," ++ "33" ++ "," ++ rest) =
    parse_part float_of_string ("73" ++ "," ++ "33").
Proof.
  apply (parse_part_reads_two_fields float_of_string "73" "33"); reflexivity.
Defined.
